(** * Foundation Models C bindings: the example client and the boundary protocol

    The definitions come first, in seven modules.

    - [CString] and [Stdio]: C strings as arrays of bytes read up to the
      first NUL, and the part of [printf] the example uses.  A read that
      leaves its array has no defined behaviour and is modelled by
      [None].
    - [Header]: the declarations of
      [Sources/FoundationModelsCBindings/include/FoundationModels.h] that
      the properties below talk about.
    - [Example]: [Sources/fm-c-example/main.c], that is the
      [GenerationContext] struct, the function [responseCallback] and
      the part of [main] that arms the context and busy-waits on it.
    - [Bridge]: the functions the header declares are implemented
      outside the C sources; this module states their contract after
      the specification.
    - [Program]: the whole of [main], over any behaviour of the library
      functions it calls.
    - [Interface]: every declaration of the header, with its
      nullability annotations.

    The properties follow, one section per subject. *)

From Stdlib Require Import List ZArith NArith Lia Bool.
From Stdlib Require Import Strings.Byte Strings.String DecimalString.
From Stdlib Require DecimalPos DecimalZ.
Import ListNotations.

(* ===================================================================== *)
(** ** C strings *)
(* ===================================================================== *)

Module CString.

(** The object a [const char *] points into: an array of bytes. *)
Abbreviation buffer := (list byte).

(** The characters in front of the first NUL of [l], or [None] when [l]
    holds no NUL (a read would run off the end of the array). *)
Fixpoint until_nul (l : list byte) : option (list byte) :=
  match l with
  | [] => None
  | b :: rest =>
      if Byte.eqb b x00 then Some []
      else option_map (cons b) (until_nul rest)
  end.

(** [strlen(buf)] *)
Definition strlen (buf : buffer) : option N :=
  option_map (fun s => N.of_nat (List.length s)) (until_nul buf).

(** The C string that starts at [&buf[off]]. *)
Definition read_at (buf : buffer) (off : N) : option (list byte) :=
  until_nul (skipn (N.to_nat off) buf).

(** A [const char *]: null, or the address of element [off] of an array. *)
Inductive ptr :=
| Null
| Ptr (buf : buffer) (off : N).

(** [l1] is an initial segment of [l2]. *)
Definition prefix (l1 l2 : list byte) : Prop := exists k, l2 = l1 ++ k.

(** ... and [l2] is longer. *)
Definition strict_prefix (l1 l2 : list byte) : Prop :=
  exists b k, l2 = l1 ++ b :: k.

(** Every element of the list is related to its successor. *)
Fixpoint chain {A : Type} (R : A -> A -> Prop) (l : list A) : Prop :=
  match l with
  | [] => True
  | a :: rest =>
      match rest with
      | [] => True
      | b :: _ => R a b /\ chain R rest
      end
  end.

End CString.

(* ===================================================================== *)
(** ** The slice of <stdio.h> the example uses *)
(* ===================================================================== *)

Module Stdio.
Import CString.

(** What a call does to the outside world, in order. *)
Inductive event :=
| Load (off n : N)          (* bytes [off, off+n) of the content array were read *)
| Write (bytes : list byte) (* bytes appended to stdout *)
| Flush.                    (* fflush(stdout) *)

Definition trace := list event.

Definition written (e : event) : list byte :=
  match e with
  | Write bs => bs
  | _ => []
  end.

(** Everything a trace appends to stdout. *)
Definition stdout_of (t : trace) : list byte := flat_map written t.

Definition is_load (e : event) : bool :=
  match e with
  | Load _ _ => true
  | _ => false
  end.

(** Variadic arguments of [printf]. *)
Inductive arg :=
| ArgStr (p : ptr)
| ArgInt (z : Z).

Definition decimal (z : Z) : list byte :=
  list_byte_of_string (NilZero.string_of_int (Z.to_int z)).

Definition percent : byte := x25.

(** What formatting needs from memory and what it produces. *)
Record formatted := { loads : list (N * N); text : list byte }.

Definition emit (bs : list byte) (f : formatted) : formatted :=
  {| loads := loads f; text := bs ++ text f |}.

(** Expansion of a format string for the directives [%s], [%d] and
    [%%].  Ordinary characters are copied; [%s] and [%d] consume one
    argument each.  [None]: the call has no defined behaviour (null or
    out-of-bounds string argument, missing or ill-typed argument, any
    other directive). *)
Fixpoint format (fmt : list byte) (args : list arg) : option formatted :=
  match fmt with
  | [] => Some {| loads := []; text := [] |}
  | c :: fmt' =>
      if Byte.eqb c percent then
        match fmt' with
        | [] => None
        | d :: fmt'' =>
            if Byte.eqb d x73 (* s *) then
              match args with
              | ArgStr (Ptr buf off) :: args' =>
                  match read_at buf off, format fmt'' args' with
                  | Some s, Some f =>
                      Some {| loads := (off, N.of_nat (List.length s) + 1)%N :: loads f;
                              text := s ++ text f |}
                  | _, _ => None
                  end
              | _ => None
              end
            else if Byte.eqb d x64 (* d *) then
              match args with
              | ArgInt z :: args' => option_map (emit (decimal z)) (format fmt'' args')
              | _ => None
              end
            else if Byte.eqb d percent then
              option_map (emit [percent]) (format fmt'' args)
            else None
        end
      else option_map (emit [c]) (format fmt' args)
  end.

(** [printf(fmt, args...)]: the strings are read, then the text goes to
    stdout. *)
Definition printf (fmt : list byte) (args : list arg) : option trace :=
  option_map
    (fun f => map (fun l => Load (fst l) (snd l)) (loads f) ++ [Write (text f)])
    (format fmt args).

End Stdio.

(* ===================================================================== *)
(** ** Sources/FoundationModelsCBindings/include/FoundationModels.h *)
(* ===================================================================== *)

Module Header.
Import CString.

(** One call of an [FMLanguageModelSessionResponseCallback] (line 23):
    [int status], [const char *_Nullable content], [size_t length].  The
    fourth argument, [userInfo], is the receiver's own state. *)
Record invocation := {
  inv_status : Z;
  inv_content : option buffer;
  inv_length : N
}.

(** [FMSystemLanguageModelUnavailableReason] (lines 27-33). *)
Inductive FMSystemLanguageModelUnavailableReason :=
| FMSystemLanguageModelUnavailableReasonAppleIntelligenceNotEnabled
| FMSystemLanguageModelUnavailableReasonDeviceNotEligible
| FMSystemLanguageModelUnavailableReasonModelNotReady
| FMSystemLanguageModelUnavailableReasonUnknown.

(** The enumerators' values. *)
Definition reason_value (r : FMSystemLanguageModelUnavailableReason) : Z :=
  match r with
  | FMSystemLanguageModelUnavailableReasonAppleIntelligenceNotEnabled => 0
  | FMSystemLanguageModelUnavailableReasonDeviceNotEligible => 1
  | FMSystemLanguageModelUnavailableReasonModelNotReady => 2
  | FMSystemLanguageModelUnavailableReasonUnknown => 0xFF
  end.

(** The parameter types that occur in the guide functions. *)
Inductive ctype :=
| TVoid
| TBool
| TInt
| TDouble
| TString                          (* const char *_Nonnull *)
| TStringArray                     (* const char *_Nonnull *_Nonnull *)
| TGenerationSchemaPropertyRef.    (* FMGenerationSchemaPropertyRef _Nonnull *)

Definition ctype_eqb (a b : ctype) : bool :=
  match a, b with
  | TVoid, TVoid | TBool, TBool | TInt, TInt | TDouble, TDouble
  | TString, TString | TStringArray, TStringArray
  | TGenerationSchemaPropertyRef, TGenerationSchemaPropertyRef => true
  | _, _ => false
  end.

Record parameter := { param_type : ctype; param_name : string }.

Record declaration := {
  decl_name : string;
  decl_return : ctype;
  decl_params : list parameter
}.

Definition property_param : parameter :=
  {| param_type := TGenerationSchemaPropertyRef; param_name := "property" |}.

Definition wrapped_param : parameter :=
  {| param_type := TBool; param_name := "wrapped" |}.

(** The kinds of validation guide; one function attaches each. *)
Inductive guide_kind :=
| AnyOfGuide
| CountGuide
| MaximumGuide
| MinimumGuide
| MinItemsGuide
| MaxItemsGuide
| RangeGuide
| RegexGuide.

Definition guide_kinds : list guide_kind :=
  [AnyOfGuide; CountGuide; MaximumGuide; MinimumGuide;
   MinItemsGuide; MaxItemsGuide; RangeGuide; RegexGuide].

(** Lines 67-74, one declaration per line, in the order of the file. *)
Definition guide_declaration (k : guide_kind) : declaration :=
  match k with
  | AnyOfGuide =>
      {| decl_name := "FMGenerationSchemaPropertyAddAnyOfGuide";
         decl_return := TVoid;
         decl_params := [property_param;
                         {| param_type := TStringArray; param_name := "anyOf" |};
                         {| param_type := TInt; param_name := "choiceCount" |};
                         wrapped_param] |}
  | CountGuide =>
      {| decl_name := "FMGenerationSchemaPropertyAddCountGuide";
         decl_return := TVoid;
         decl_params := [property_param;
                         {| param_type := TInt; param_name := "count" |};
                         wrapped_param] |}
  | MaximumGuide =>
      {| decl_name := "FMGenerationSchemaPropertyAddMaximumGuide";
         decl_return := TVoid;
         decl_params := [property_param;
                         {| param_type := TDouble; param_name := "maximum" |};
                         wrapped_param] |}
  | MinimumGuide =>
      {| decl_name := "FMGenerationSchemaPropertyAddMinimumGuide";
         decl_return := TVoid;
         decl_params := [property_param;
                         {| param_type := TDouble; param_name := "minimum" |};
                         wrapped_param] |}
  | MinItemsGuide =>
      {| decl_name := "FMGenerationSchemaPropertyAddMinItemsGuide";
         decl_return := TVoid;
         decl_params := [property_param;
                         {| param_type := TInt; param_name := "minItems" |}] |}
  | MaxItemsGuide =>
      {| decl_name := "FMGenerationSchemaPropertyAddMaxItemsGuide";
         decl_return := TVoid;
         decl_params := [property_param;
                         {| param_type := TInt; param_name := "maxItems" |}] |}
  | RangeGuide =>
      {| decl_name := "FMGenerationSchemaPropertyAddRangeGuide";
         decl_return := TVoid;
         decl_params := [property_param;
                         {| param_type := TDouble; param_name := "minValue" |};
                         {| param_type := TDouble; param_name := "maxValue" |};
                         wrapped_param] |}
  | RegexGuide =>
      {| decl_name := "FMGenerationSchemaPropertyAddRegex";
         decl_return := TVoid;
         decl_params := [property_param;
                         {| param_type := TString; param_name := "pattern" |};
                         wrapped_param] |}
  end.

(** The function has a [bool wrapped] parameter. *)
Definition accepts_wrapped (d : declaration) : bool :=
  existsb (fun p => ctype_eqb (param_type p) TBool
                    && String.eqb (param_name p) "wrapped")
          (decl_params d).

(** The guides on the size of a collection. *)
Definition is_items_guide (k : guide_kind) : bool :=
  match k with
  | MinItemsGuide | MaxItemsGuide => true
  | _ => false
  end.

End Header.

(* ===================================================================== *)
(** ** Sources/fm-c-example/main.c *)
(* ===================================================================== *)

Module Example.
Import CString Stdio Header.

(** [typedef struct { size_t lastLength; bool isResponding; } GenerationContext;]
    No arithmetic is done on [lastLength]: it is stored and used as an
    index, so its width plays no role. *)
Record GenerationContext := {
  lastLength : N;
  isResponding : bool
}.

(** The string literals of [responseCallback], as the bytes the
    compiler emits.  In the first one the source has the escape
    [\(], which C compilers read as the character [(]. *)
Definition failure_format : list byte :=
  list_byte_of_string "Failed to respond (error: (status))".

Definition content_format : list byte := list_byte_of_string "%s".

Definition done_format : list byte :=
  [x0a] ++ list_byte_of_string "✅" ++ [x0a].

(** [&content[i]] *)
Definition address_of_index (content : option buffer) (i : N) : ptr :=
  match content with
  | Some buf => Ptr buf i
  | None => Null
  end.

(** [void responseCallback(int status, const char *content, size_t length, void *userInfo)]
    with [userInfo] pointing at [context].  The result is the context
    after the call and what the call did, or [None] where the C has no
    defined behaviour. *)
Definition responseCallback (status : Z) (content : option buffer) (length : N)
    (context : GenerationContext) : option (GenerationContext * trace) :=
  if negb (status =? 0)%Z then
    match printf failure_format [] with
    | Some t =>
        Some ({| lastLength := lastLength context; isResponding := false |}, t)
    | None => None
    end
  else
    match content with
    | Some _ =>
        match printf content_format
                [ArgStr (address_of_index content (lastLength context))] with
        | Some t =>
            Some ({| lastLength := length; isResponding := isResponding context |},
                  t ++ [Flush])
        | None => None
        end
    | None =>
        match printf done_format [] with
        | Some t =>
            Some ({| lastLength := lastLength context; isResponding := false |}, t)
        | None => None
        end
    end.

Definition call (context : GenerationContext) (i : invocation) :=
  responseCallback (inv_status i) (inv_content i) (inv_length i) context.

(** The callback run on a sequence of invocations, one after the
    other on the same context; one trace per invocation. *)
Fixpoint deliver (context : GenerationContext) (invs : list invocation)
  : option (GenerationContext * list trace) :=
  match invs with
  | [] => Some (context, [])
  | i :: rest =>
      match call context i with
      | None => None
      | Some (context', t) =>
          match deliver context' rest with
          | None => None
          | Some (final, ts) => Some (final, t :: ts)
          end
      end
  end.

(** [main], lines 43-45: the context handed to the stream. *)
Definition main_context : GenerationContext :=
  {| lastLength := 0; isResponding := true |}.

(** The invocation carries text: [content] is not null. *)
Definition has_content (i : invocation) : bool :=
  match inv_content i with
  | Some _ => true
  | None => false
  end.

(** Null content or nonzero status: the two ways a stream ends. *)
Definition is_terminal (i : invocation) : bool :=
  negb (inv_status i =? 0)%Z || negb (has_content i).

(** The text of an invocation: the C string [content] points at. *)
Definition snapshot_of (i : invocation) : option (list byte) :=
  match inv_content i with
  | Some buf => until_nul buf
  | None => None
  end.

(** The texts of the invocations that carry one, in order. *)
Fixpoint snapshots (invs : list invocation) : list (list byte) :=
  match invs with
  | [] => []
  | i :: rest =>
      match snapshot_of i with
      | Some s => s :: snapshots rest
      | None => snapshots rest
      end
  end.

(** [length] is the length of the string [content] points at. *)
Definition length_reported (i : invocation) : Prop :=
  forall buf, inv_content i = Some buf -> strlen buf = Some (inv_length i).

(** The reported lengths of the invocations with content never shrink. *)
Definition lengths_nondecreasing (invs : list invocation) : Prop :=
  chain N.le (map inv_length (filter has_content invs)).

(** The cursor is at most every length still to come. *)
Definition cursor_below (context : GenerationContext) (invs : list invocation) : Prop :=
  chain N.le (lastLength context :: map inv_length (filter has_content invs)).

(** The read [&content[context->lastLength]] of an invocation that
    reaches it: the cursor is at most the reported length, and the
    string read from there ends inside the array. *)
Definition read_in_bounds (context : GenerationContext) (i : invocation) : Prop :=
  forall buf, inv_status i = 0%Z -> inv_content i = Some buf ->
    (lastLength context <= inv_length i)%N /\
    exists s, read_at buf (lastLength context) = Some s /\
      (lastLength context + N.of_nat (List.length s) + 1
       <= N.of_nat (List.length buf))%N.

(** ASCII decimal digits. *)
Definition is_digit (b : byte) : bool :=
  let n := Byte.to_N b in ((48 <=? n) && (n <=? 57))%N.

(** What the invocations with content printed, out of one trace per
    invocation. *)
Fixpoint content_output (invs : list invocation) (ts : list trace) : list byte :=
  match invs, ts with
  | i :: invs', t :: ts' =>
      (if has_content i then stdout_of t else []) ++ content_output invs' ts'
  | _, _ => []
  end.

(** Everything printed. *)
Definition output (ts : list trace) : list byte := flat_map stdout_of ts.

(** Sample invocations: a success carrying the text [s], and the end
    of the stream. *)
Definition success (s : string) : invocation :=
  {| inv_status := 0;
     inv_content := Some (list_byte_of_string s ++ [x00]);
     inv_length := N.of_nat (String.length s) |}.

Definition end_of_stream : invocation :=
  {| inv_status := 0; inv_content := None; inv_length := 0 |}.

Definition sample_stream : list invocation :=
  [success "He"; success "Hello"; end_of_stream].

(** **** The busy-wait of [main], lines 46-47

    [FMLanguageModelSessionResponseStreamIterate] hands the stream's
    invocations to the engine, whose thread runs the callback on them
    in order while [main] evaluates [context.isResponding] again and
    again.  The flag is a plain [bool], neither [volatile] nor atomic,
    that the engine thread writes while [main] reads it: nothing orders
    the write and the read, and a compiler may keep the value it loaded
    before instead of loading it again (an optimised build loads it
    once, before the loop).

    A schedule lists, for each evaluation of the loop condition, how
    many further invocations the engine has completed before it, and
    whether the evaluation loads the flag from memory.  An evaluation
    that loads sees the context as the last completed invocation left
    it; one that does not sees again the value [seen] that the loop saw
    last (at first, the value [main] stored itself). *)
Inductive wait_result :=
| Exited (context : GenerationContext) (evaluations : nat) (undelivered : list invocation)
| Spinning (context : GenerationContext) (undelivered : list invocation)
| Undefined.

Fixpoint busy_wait_seen (seen : bool) (context : GenerationContext)
    (pending : list invocation) (schedule : list (nat * bool)) (evaluations : nat)
  : wait_result :=
  match schedule with
  | [] => Spinning context pending
  | (k, loads) :: schedule' =>
      match deliver context (firstn k pending) with
      | None => Undefined
      | Some (context', _) =>
          let observed := if loads then isResponding context' else seen in
          if observed
          then busy_wait_seen observed context' (skipn k pending) schedule'
                 (S evaluations)
          else Exited context' (S evaluations) (skipn k pending)
      end
  end.

Definition busy_wait (context : GenerationContext) (pending : list invocation)
    (schedule : list (nat * bool)) (evaluations : nat) : wait_result :=
  busy_wait_seen (isResponding context) context pending schedule evaluations.

(** How many invocations a schedule lets the engine complete. *)
Definition completed (schedule : list (nat * bool)) : nat :=
  list_sum (map fst schedule).

(** No evaluation of the schedule loads the flag. *)
Definition never_loads (schedule : list (nat * bool)) : Prop :=
  Forall (fun e => snd e = false) schedule.

End Example.

(* ===================================================================== *)
(** ** The functions behind the header *)
(* ===================================================================== *)

(** The header declares [FMRetain], [FMRelease], [FMTaskCancel],
    [FMLanguageModelSessionRespond],
    [FMLanguageModelSessionResponseStreamIterate] and
    [FMSystemLanguageModelIsAvailable]; their bodies are not part of the
    C sources.  This module states their contract as the specification
    words it, as executable transition functions. *)
Module Bridge.
Import CString Header.

(** *** Reference counting (specification 4.1, 8) *)

(** An engine-side object behind a reference: how many owners hold it,
    how often its teardown has run, and how many calls reached it after
    its teardown (caller misuse). *)
Record object := {
  owners : nat;
  teardowns : nat;
  misuses : nat
}.

(** A reference as the caller first obtains it: one owner. *)
Definition acquired : object := {| owners := 1; teardowns := 0; misuses := 0 |}.

Definition alive (o : object) : bool := negb (owners o =? 0).

(** Modelled from the spec: the body of [FMRetain], which the C sources
    only declare.  "Retain increments a shared ownership count."  A
    retain of an object already torn down is caller misuse and revives
    nothing. *)
Definition FMRetain (o : object) : object :=
  match owners o with
  | 0 => {| owners := 0; teardowns := teardowns o; misuses := S (misuses o) |}
  | S n => {| owners := S (S n); teardowns := teardowns o; misuses := misuses o |}
  end.

(** Modelled from the spec: the body of [FMRelease], which the C sources
    only declare.  "Release decrements it and, at zero, triggers
    engine-side teardown"; a further release "must not double-free". *)
Definition FMRelease (o : object) : object :=
  match owners o with
  | 0 => {| owners := 0; teardowns := teardowns o; misuses := S (misuses o) |}
  | 1 => {| owners := 0; teardowns := S (teardowns o); misuses := misuses o |}
  | S n => {| owners := n; teardowns := teardowns o; misuses := misuses o |}
  end.

(** *** Callback deliveries (specification 4.3) *)

(** What the engine hands to a callback, before it is laid out as the C
    arguments: a status, the text or nothing, and the length reported. *)
Record delivery := {
  status : Z;
  payload : option (list byte);
  reported_length : N
}.

(** A failure reason of the engine; its status code is any integer but
    0 ("0 = success, nonzero = failure reason"). *)
Inductive engine_error :=
| ErrorAbove (code : positive)
| ErrorBelow (code : positive).

Definition status_of (e : engine_error) : Z :=
  match e with
  | ErrorAbove code => Z.pos code
  | ErrorBelow code => Z.neg code
  end.

Definition succeeded (text : list byte) : delivery :=
  {| status := 0; payload := Some text; reported_length := N.of_nat (List.length text) |}.

Definition failed (e : engine_error) : delivery :=
  {| status := status_of e; payload := None; reported_length := 0 |}.

Definition end_marker : delivery :=
  {| status := 0; payload := None; reported_length := 0 |}.

(** The C arguments of a delivery: the text as a NUL-terminated array. *)
Definition marshal (d : delivery) : invocation :=
  {| inv_status := status d;
     inv_content := option_map (fun text => text ++ [x00]) (payload d);
     inv_length := reported_length d |}.

(** The text has no NUL inside: as a C string it is itself. *)
Definition nul_free (d : delivery) : Prop :=
  forall text, payload d = Some text -> Forall (fun b => b <> x00) text.

Definition has_payload (d : delivery) : bool :=
  match payload d with
  | Some _ => true
  | None => false
  end.

(** The texts delivered, in order. *)
Fixpoint texts (ds : list delivery) : list (list byte) :=
  match ds with
  | [] => []
  | d :: rest =>
      match payload d with
      | Some text => text :: texts rest
      | None => texts rest
      end
  end.

(** A delivery of a snapshot: status 0, a text, and its length. *)
Definition snapshot_delivery (d : delivery) : Prop :=
  status d = 0%Z
  /\ exists text, payload d = Some text
                  /\ reported_length d = N.of_nat (List.length text).

(** The deliveries without content. *)
Definition null_deliveries (ds : list delivery) : list delivery :=
  filter (fun d => negb (has_payload d)) ds.

(** *** Tasks: single-shot requests and cancellation (3, 4.2, 4.4) *)

Inductive engine_result :=
| Generated (text : list byte)
| Failed (e : engine_error).

(** "Transitions: running -> completed or running -> cancelled." *)
Inductive task_state :=
| Running
| Completed
| Cancelled.

(** What can happen to a task: the engine finishes the request, or the
    caller calls [FMTaskCancel]. *)
Inductive task_event :=
| Finished (r : engine_result)
| CancelRequested.

(** The specification leaves open whether the callback of a cancelled
    task is suppressed ([None]) or fires with a distinguished failure
    status ([Some e]). *)
Definition cancel_policy := option engine_error.

(** Modelled from the spec: how a task of
    [FMLanguageModelSessionRespond] reacts to an event, the bodies of
    that function and of [FMTaskCancel] being absent from the C sources.
    "The callback is invoked exactly once, with a status code and, on
    success, the result payload; on failure the payload is absent";
    "cancelling an already-completed or already-cancelled task is a
    no-op, not an error". *)
Definition task_step (policy : cancel_policy) (s : task_state) (e : task_event)
  : task_state * list delivery :=
  match s with
  | Running =>
      match e with
      | Finished (Generated text) => (Completed, [succeeded text])
      | Finished (Failed err) => (Completed, [failed err])
      | CancelRequested =>
          (Cancelled, match policy with
                      | Some err => [failed err]
                      | None => []
                      end)
      end
  | Completed => (Completed, [])
  | Cancelled => (Cancelled, [])
  end.

(** A task's life: the events in order, the deliveries concatenated. *)
Fixpoint task_run (policy : cancel_policy) (s : task_state) (es : list task_event)
  : task_state * list delivery :=
  match es with
  | [] => (s, [])
  | e :: rest =>
      let (s', ds) := task_step policy s e in
      let (final, ds') := task_run policy s' rest in
      (final, ds ++ ds')
  end.



(** Modelled from the spec: [FMTaskCancel] on a task in state [s]. *)
Definition FMTaskCancel (policy : cancel_policy) (s : task_state)
  : task_state * list delivery :=
  task_step policy s CancelRequested.

(** *** Streams (3, 4.3) *)

(** What the engine does to a stream under iteration: the response
    grows by a non-empty piece, it is complete, or the request fails. *)
Inductive stream_event :=
| Grew (b : byte) (bs : list byte)
| Ended
| Broke (e : engine_error).

(** A stream is open, with the response accumulated so far, or closed. *)
Inductive stream_state :=
| Open (so_far : list byte)
| Closed.

(** Modelled from the spec: one step of
    [FMLanguageModelSessionResponseStreamIterate], whose body is absent
    from the C sources.  "Each time with status 0 and the full content
    accumulated so far (not a delta) plus its length; the stream is
    terminated by exactly one final invocation with a null content
    pointer, after which the callback must not fire again.  A nonzero
    status at any point is terminal: no further invocations follow, and
    no end-of-stream marker is separately sent." *)
Definition stream_step (s : stream_state) (e : stream_event)
  : stream_state * list delivery :=
  match s with
  | Closed => (Closed, [])
  | Open so_far =>
      match e with
      | Grew b bs => (Open (so_far ++ b :: bs), [succeeded (so_far ++ b :: bs)])
      | Ended => (Closed, [end_marker])
      | Broke err => (Closed, [failed err])
      end
  end.

Fixpoint stream_run (s : stream_state) (es : list stream_event) : list delivery :=
  match es with
  | [] => []
  | e :: rest =>
      let (s', ds) := stream_step s e in ds ++ stream_run s' rest
  end.

(** Modelled from the spec: the callback invocations of
    [FMLanguageModelSessionResponseStreamIterate] on a fresh stream,
    given what the engine does to it. *)
Definition FMLanguageModelSessionResponseStreamIterate (es : list stream_event)
  : list delivery :=
  stream_run (Open []) es.

(** The engine brought the stream to an end. *)
Definition terminates (e : stream_event) : bool :=
  match e with
  | Grew _ _ => false
  | Ended | Broke _ => true
  end.

(** *** Availability (4.1, 7) *)

Inductive availability :=
| Available
| Unavailable (reason : FMSystemLanguageModelUnavailableReason).

(** The result of the query: the [bool] returned, the out-parameter
    after the call ([None] for a null pointer), and the engine's
    availability after the call. *)
Record availability_result := {
  is_available : bool;
  reason_cell : option Z;
  engine_after : availability
}.

(** Modelled from the spec: the body of
    [FMSystemLanguageModelIsAvailable], which the C sources only
    declare.  "Synchronous, side-effect-free, and may populate an
    out-parameter reason code from a closed enumeration." *)
Definition FMSystemLanguageModelIsAvailable (engine : availability)
    (unavailableReason : option Z) : availability_result :=
  match engine with
  | Available =>
      {| is_available := true;
         reason_cell := unavailableReason;
         engine_after := engine |}
  | Unavailable reason =>
      {| is_available := false;
         reason_cell := option_map (fun _ => reason_value reason) unavailableReason;
         engine_after := engine |}
  end.

End Bridge.

(* ===================================================================== *)
(** ** Sources/fm-c-example/main.c: the whole of [main] *)
(* ===================================================================== *)

Module Program.
Import CString Stdio Header Example.

(** The value of an opaque reference ([const void *]). *)
Abbreviation handle := Z.


(** The string literals of [main]. *)
Definition available_format : list byte :=
  list_byte_of_string "Model is available" ++ [x0a].

Definition unavailable_format : list byte :=
  list_byte_of_string "Model is unavailable (reason: %d)" ++ [x0a].




(** [(int)u] for a 32-bit [u]: the same 32 bits read as a two's
    complement number. *)
Definition int_cast (z : Z) : Z := (z + 2 ^ 31) mod 2 ^ 32 - 2 ^ 31.

(** Lines 35-39: the availability report, [unavailableReason] being the
    value of the enumeration object. *)
Definition report (isAvailable : bool) (unavailableReason : Z) : option trace :=
  if isAvailable then printf available_format []
  else printf unavailable_format [ArgInt (int_cast unavailableReason)].

(** The line printed for an unavailable model, given the [int] shown. *)
Definition unavailable_line (shown : Z) : list byte :=
  list_byte_of_string "Model is unavailable (reason: " ++ decimal shown
  ++ list_byte_of_string ")" ++ [x0a].

(** What the terminal invocation of a stream prints. *)
Definition closing (i : invocation) : list byte :=
  if negb (inv_status i =? 0)%Z then failure_format else done_format.








(** What an observer who cannot see the flag learns from a call or a
    run: the cursor left behind and what was done. *)
Definition without_flag {T : Type} (r : option (GenerationContext * T))
  : option (N * T) :=
  option_map (fun r => (lastLength (fst r), snd r)) r.

End Program.

(* ===================================================================== *)
(** ** FoundationModels.h: every declaration *)
(* ===================================================================== *)

(** The whole header as data: the typedefs of lines 13-24 and the
    thirty-six function declarations of lines 50-97, each with its
    result type and its parameters in order, nullability annotations
    included.  ([Header] above holds the slice of it that the guide
    functions need.) *)
Module Interface.

Inductive nullability :=
| Nonnull
| Nullable
| Unannotated.

(** The opaque reference types, lines 13-20: each is [const void *]. *)
Inductive reference :=
| FMTaskRef
| FMSystemLanguageModelRef
| FMLanguageModelSessionRef
| FMLanguageModelSessionResponseStreamRef
| FMGenerationSchemaRef
| FMGeneratedContentRef
| FMGenerationSchemaPropertyRef
| FMBridgedToolRef.

(** The annotation a typedef carries itself: line 13 reads
    [typedef const void *_Nonnull FMTaskRef;], the others have none. *)
Definition typedef_nullability (r : reference) : nullability :=
  match r with
  | FMTaskRef => Nonnull
  | _ => Unannotated
  end.

(** The callback types, lines 23-24; both are [_Nonnull] function
    pointers. *)
Inductive callback :=
| FMLanguageModelSessionResponseCallback
| FMLanguageModelSessionStructuredResponseCallback.

(** The enumerations, lines 27-47. *)
Inductive enumeration :=
| UnavailableReasonEnum
| UseCaseEnum
| GuardrailsEnum.

#[warnings="-register-all"]
Inductive ctype :=
| CVoid
| CBool
| CInt
| CUnsignedInt
| CDouble
| CChar
| CConstChar
| CConstVoid
| CEnum (e : enumeration)
| CRef (r : reference) (n : nullability)
| CCallback (c : callback)
| CPointer (pointee : ctype) (n : nullability)
| CFunctionPointer (result : ctype) (arguments : list ctype) (n : nullability).

Record parameter := { ptype : ctype; pname : string }.

Record declaration := {
  fname : string;
  result : ctype;
  params : list parameter
}.

Definition param (t : ctype) (name : string) : parameter :=
  {| ptype := t; pname := name |}.

(** Types that recur. *)
Definition string_in (n : nullability) : ctype := CPointer CConstChar n.
Definition owned_string : ctype := CPointer CChar Nullable.
Definition user_info : parameter := param (CPointer CVoid Nullable) "userInfo".
Definition out_error_code : parameter := param (CPointer CInt Nullable) "outErrorCode".
Definition out_error_description : parameter :=
  param (CPointer (CPointer CChar Nullable) Nullable) "outErrorDescription".
Definition session_param : parameter :=
  param (CRef FMLanguageModelSessionRef Nonnull) "session".
Definition property_param : parameter :=
  param (CRef FMGenerationSchemaPropertyRef Nonnull) "property".
Definition wrapped_param : parameter := param CBool "wrapped".

(** Lines 50-97, in the order of the file. *)
Definition declarations : list declaration :=
  [ {| fname := "FMSystemLanguageModelGetDefault";
       result := CRef FMSystemLanguageModelRef Nonnull;
       params := [] |};
    {| fname := "FMSystemLanguageModelCreate";
       result := CRef FMSystemLanguageModelRef Nonnull;
       params := [param (CEnum UseCaseEnum) "useCase";
                  param (CEnum GuardrailsEnum) "guardrails"] |};
    {| fname := "FMSystemLanguageModelIsAvailable";
       result := CBool;
       params := [param (CRef FMSystemLanguageModelRef Nonnull) "ref";
                  param (CPointer (CEnum UnavailableReasonEnum) Nullable)
                    "unavailableReason"] |};
    {| fname := "FMLanguageModelSessionCreateDefault";
       result := CRef FMLanguageModelSessionRef Nonnull;
       params := [] |};
    {| fname := "FMLanguageModelSessionCreateFromSystemLanguageModel";
       result := CRef FMLanguageModelSessionRef Nonnull;
       params := [param (CRef FMSystemLanguageModelRef Nullable) "model";
                  param (string_in Nullable) "instructions";
                  param (CPointer (CRef FMBridgedToolRef Nullable) Nullable) "tools";
                  param CInt "toolCount"] |};
    {| fname := "FMLanguageModelSessionIsResponding";
       result := CBool;
       params := [session_param] |};
    {| fname := "FMLanguageModelSessionReset";
       result := CVoid;
       params := [session_param] |};
    {| fname := "FMLanguageModelSessionRespond";
       result := CRef FMTaskRef Unannotated;
       params := [session_param;
                  param (string_in Nonnull) "prompt";
                  user_info;
                  param (CCallback FMLanguageModelSessionResponseCallback) "callback"] |};
    {| fname := "FMLanguageModelSessionStreamResponse";
       result := CRef FMLanguageModelSessionResponseStreamRef Nonnull;
       params := [session_param; param (string_in Nonnull) "prompt"] |};
    {| fname := "FMLanguageModelSessionResponseStreamIterate";
       result := CVoid;
       params := [param (CRef FMLanguageModelSessionResponseStreamRef Nonnull) "stream";
                  user_info;
                  param (CCallback FMLanguageModelSessionResponseCallback) "callback"] |};
    {| fname := "FMLanguageModelSessionGetTranscriptJSONString";
       result := owned_string;
       params := [session_param; out_error_code; out_error_description] |};
    {| fname := "FMGenerationSchemaCreate";
       result := CRef FMGenerationSchemaRef Nonnull;
       params := [param (string_in Nonnull) "name";
                  param (string_in Nullable) "description"] |};
    {| fname := "FMGenerationSchemaPropertyCreate";
       result := CRef FMGenerationSchemaPropertyRef Nonnull;
       params := [param (string_in Nonnull) "name";
                  param (string_in Nullable) "description";
                  param (string_in Nonnull) "typeName";
                  param CBool "isOptional"] |};
    {| fname := "FMGenerationSchemaPropertyAddAnyOfGuide";
       result := CVoid;
       params := [property_param;
                  param (CPointer (string_in Nonnull) Nonnull) "anyOf";
                  param CInt "choiceCount";
                  wrapped_param] |};
    {| fname := "FMGenerationSchemaPropertyAddCountGuide";
       result := CVoid;
       params := [property_param; param CInt "count"; wrapped_param] |};
    {| fname := "FMGenerationSchemaPropertyAddMaximumGuide";
       result := CVoid;
       params := [property_param; param CDouble "maximum"; wrapped_param] |};
    {| fname := "FMGenerationSchemaPropertyAddMinimumGuide";
       result := CVoid;
       params := [property_param; param CDouble "minimum"; wrapped_param] |};
    {| fname := "FMGenerationSchemaPropertyAddMinItemsGuide";
       result := CVoid;
       params := [property_param; param CInt "minItems"] |};
    {| fname := "FMGenerationSchemaPropertyAddMaxItemsGuide";
       result := CVoid;
       params := [property_param; param CInt "maxItems"] |};
    {| fname := "FMGenerationSchemaPropertyAddRangeGuide";
       result := CVoid;
       params := [property_param;
                  param CDouble "minValue";
                  param CDouble "maxValue";
                  wrapped_param] |};
    {| fname := "FMGenerationSchemaPropertyAddRegex";
       result := CVoid;
       params := [property_param; param (string_in Nonnull) "pattern"; wrapped_param] |};
    {| fname := "FMGenerationSchemaAddProperty";
       result := CVoid;
       params := [param (CRef FMGenerationSchemaRef Nonnull) "schema";
                  property_param] |};
    {| fname := "FMGenerationSchemaAddReferenceSchema";
       result := CVoid;
       params := [param (CRef FMGenerationSchemaRef Nonnull) "schema";
                  param (CRef FMGenerationSchemaRef Nonnull) "referenceSchema"] |};
    {| fname := "FMGenerationSchemaGetJSONString";
       result := owned_string;
       params := [param (CRef FMGenerationSchemaRef Nonnull) "schema";
                  out_error_code; out_error_description] |};
    {| fname := "FMGeneratedContentCreateFromJSON";
       result := CRef FMGeneratedContentRef Nullable;
       params := [param (string_in Nonnull) "jsonString";
                  out_error_code; out_error_description] |};
    {| fname := "FMGeneratedContentGetJSONString";
       result := owned_string;
       params := [param (CRef FMGeneratedContentRef Nonnull) "content"] |};
    {| fname := "FMGeneratedContentGetPropertyValue";
       result := owned_string;
       params := [param (CRef FMGeneratedContentRef Nonnull) "content";
                  param (string_in Nonnull) "propertyName";
                  out_error_code; out_error_description] |};
    {| fname := "FMGeneratedContentIsComplete";
       result := CBool;
       params := [param (CRef FMGeneratedContentRef Nonnull) "content"] |};
    {| fname := "FMLanguageModelSessionRespondWithSchema";
       result := CRef FMTaskRef Unannotated;
       params := [session_param;
                  param (string_in Nonnull) "prompt";
                  param (CRef FMGenerationSchemaRef Nonnull) "schema";
                  user_info;
                  param (CCallback FMLanguageModelSessionStructuredResponseCallback)
                    "callback"] |};
    {| fname := "FMLanguageModelSessionRespondWithSchemaFromJSON";
       result := CRef FMTaskRef Unannotated;
       params := [session_param;
                  param (string_in Nonnull) "prompt";
                  param (string_in Nonnull) "schemaJSONString";
                  user_info;
                  param (CCallback FMLanguageModelSessionStructuredResponseCallback)
                    "callback"] |};
    {| fname := "FMBridgedToolCreate";
       result := CRef FMBridgedToolRef Nullable;
       params := [param (string_in Nonnull) "name";
                  param (string_in Nonnull) "description";
                  param (CRef FMGenerationSchemaRef Nonnull) "parameters";
                  param (CFunctionPointer CVoid
                           [CRef FMGeneratedContentRef Nonnull; CUnsignedInt] Nonnull)
                    "callable";
                  out_error_code; out_error_description] |};
    {| fname := "FMBridgedToolFinishCall";
       result := CVoid;
       params := [param (CRef FMBridgedToolRef Nonnull) "tool";
                  param CUnsignedInt "callId";
                  param (string_in Nonnull) "output"] |};
    {| fname := "FMTaskCancel";
       result := CVoid;
       params := [param (CRef FMTaskRef Unannotated) "task"] |};
    {| fname := "FMRetain";
       result := CVoid;
       params := [param (CPointer CConstVoid Nonnull) "object"] |};
    {| fname := "FMRelease";
       result := CVoid;
       params := [param (CPointer CConstVoid Nonnull) "object"] |};
    {| fname := "FMFreeString";
       result := CVoid;
       params := [param owned_string "str"] |} ].

(** Whether a value of the type may be null: the annotation at the use,
    or the typedef's where the use has none; [None] for a type that is
    not a pointer. *)
Definition may_be_null (t : ctype) : option nullability :=
  match t with
  | CRef r Unannotated => Some (typedef_nullability r)
  | CRef _ n => Some n
  | CCallback _ => Some Nonnull
  | CPointer _ n => Some n
  | CFunctionPointer _ _ n => Some n
  | _ => None
  end.

(** A type through which the engine calls the caller back: one of the
    two response callback types, or a pointer to a function. *)
Definition is_callback (t : ctype) : bool :=
  match t with
  | CCallback _ => true
  | CFunctionPointer _ _ _ => true
  | _ => false
  end.

(** The fourth parameter of [FMBridgedToolCreate], line 90:
    [void ( *_Nonnull callable)(FMGeneratedContentRef _Nonnull, unsigned int)]. *)
Definition tool_callable : parameter :=
  param (CFunctionPointer CVoid [CRef FMGeneratedContentRef Nonnull; CUnsignedInt]
           Nonnull)
    "callable".

Definition has_user_info (d : declaration) : bool :=
  existsb (fun p => String.eqb (pname p) "userInfo") (params d).

Definition is_reference (t : ctype) : bool :=
  match t with
  | CRef _ _ => true
  | _ => false
  end.

Definition is_task (t : ctype) : bool :=
  match t with
  | CRef FMTaskRef _ => true
  | _ => false
  end.

(** [char *], with any annotation: a string the receiver may free. *)
Definition is_mutable_string (t : ctype) : bool :=
  match t with
  | CPointer CChar _ => true
  | _ => false
  end.

Definition takes_callback (d : declaration) : bool :=
  existsb (fun p => is_callback (ptype p)) (params d).

Definition reports_errors (d : declaration) : bool :=
  existsb (fun p => String.eqb (pname p) "outErrorCode"
                    || String.eqb (pname p) "outErrorDescription")
          (params d).

(** The last two elements of a list (fewer if it is shorter). *)
Definition last_two {A : Type} (l : list A) : list A :=
  skipn (List.length l - 2) l.

(** The declaration of a given name. *)
Definition lookup (name : string) : option declaration :=
  find (fun d => String.eqb (fname d) name) declarations.

End Interface.

(* ===================================================================== *)
(** ** Facts about C strings and [printf] *)
(* ===================================================================== *)

Section CStringFacts.
Import CString Stdio.

Lemma until_nul_length l s :
  until_nul l = Some s -> List.length s < List.length l.
Proof.
  revert s; induction l as [|b rest IH]; intros s; simpl; [discriminate|].
  destruct (Byte.eqb b x00).
  - intros [= <-]; simpl; lia.
  - destruct (until_nul rest) as [s'|]; simpl; [|discriminate].
    intros [= <-]; simpl. specialize (IH s' eq_refl). lia.
Qed.

(** Reading from inside a string yields the rest of that string. *)
Lemma until_nul_skipn l s n :
  until_nul l = Some s -> n <= List.length s ->
  until_nul (skipn n l) = Some (skipn n s).
Proof.
  revert s n; induction l as [|b rest IH]; intros s n; simpl; [discriminate|].
  destruct (Byte.eqb b x00) eqn:Eb.
  - intros [= <-]; simpl; intros Hn.
    assert (n = 0) as -> by lia. simpl. now rewrite Eb.
  - destruct (until_nul rest) as [s'|] eqn:Er; simpl; [|discriminate].
    intros [= <-] Hn. destruct n as [|n]; simpl.
    + now rewrite Eb, Er.
    + simpl in Hn. apply IH; [reflexivity | lia].
Qed.

Lemma read_at_suffix buf s off :
  until_nul buf = Some s -> (off <= N.of_nat (List.length s))%N ->
  read_at buf off = Some (skipn (N.to_nat off) s).
Proof.
  intros Hs Hoff. unfold read_at. apply until_nul_skipn; [assumption | lia].
Qed.

(** A read that is defined stays inside the array, terminator included. *)
Lemma read_at_in_bounds buf off s :
  read_at buf off = Some s ->
  (off + N.of_nat (List.length s) + 1 <= N.of_nat (List.length buf))%N.
Proof.
  unfold read_at; intros H. apply until_nul_length in H.
  rewrite length_skipn in H. lia.
Qed.

Lemma strlen_inv buf n :
  strlen buf = Some n ->
  exists s, until_nul buf = Some s /\ n = N.of_nat (List.length s).
Proof.
  unfold strlen. destruct (until_nul buf) as [s|]; simpl; [|discriminate].
  intros [= <-]. now exists s.
Qed.

Lemma printf_string buf off s :
  read_at buf off = Some s ->
  printf Example.content_format [ArgStr (Ptr buf off)]
  = Some [Load off (N.of_nat (List.length s) + 1); Write s].
Proof.
  intros H. unfold printf, Example.content_format. simpl. rewrite H. simpl.
  now rewrite app_nil_r.
Qed.

Lemma printf_string_undefined buf off :
  read_at buf off = None ->
  printf Example.content_format [ArgStr (Ptr buf off)] = None.
Proof.
  intros H. unfold printf, Example.content_format. simpl. now rewrite H.
Qed.

Lemma chain_cons_inv {A} (R : A -> A -> Prop) a l :
  chain R (a :: l) -> chain R l.
Proof. destruct l as [|b l]; simpl; tauto. Qed.

Lemma chain_le_skip a b l :
  chain N.le (a :: b :: l) -> chain N.le (a :: l).
Proof.
  intros [Hab Hl]. destruct l as [|c l]; simpl; [exact I|].
  destruct Hl as [Hbc Hl]. split; [lia | exact Hl].
Qed.

End CStringFacts.

(* ===================================================================== *)
(** ** The example's callback, one invocation at a time *)
(* ===================================================================== *)

Section CallbackSteps.
Import CString Stdio Header Example.

Lemma printf_failure : printf failure_format [] = Some [Write failure_format].
Proof. reflexivity. Qed.

Lemma printf_done : printf done_format [] = Some [Write done_format].
Proof. reflexivity. Qed.

(** Nonzero status: the first branch. *)
Lemma responseCallback_failure status content length context :
  status <> 0%Z ->
  responseCallback status content length context
  = Some ({| lastLength := lastLength context; isResponding := false |},
          [Write failure_format]).
Proof.
  intros Hs. unfold responseCallback. rewrite printf_failure.
  now destruct (Z.eqb_spec status 0) as [E|_]; [contradiction|].
Qed.

(** Status 0 and null content: the end of the stream. *)
Lemma responseCallback_done length context :
  responseCallback 0 None length context
  = Some ({| lastLength := lastLength context; isResponding := false |},
          [Write done_format]).
Proof. unfold responseCallback. now rewrite printf_done. Qed.

(** Status 0 and a string that reaches at least to the cursor: the
    unseen suffix is printed and the cursor moves to [length]. *)
Lemma responseCallback_content buf s length context :
  until_nul buf = Some s ->
  (lastLength context <= N.of_nat (List.length s))%N ->
  responseCallback 0 (Some buf) length context
  = Some ({| lastLength := length; isResponding := isResponding context |},
          [Load (lastLength context)
                (N.of_nat (List.length (skipn (N.to_nat (lastLength context)) s)) + 1);
           Write (skipn (N.to_nat (lastLength context)) s);
           Flush]).
Proof.
  intros Hs Hle. unfold responseCallback, address_of_index.
  rewrite (printf_string _ _ _ (read_at_suffix _ _ _ Hs Hle)). reflexivity.
Qed.

(** Status 0 and a cursor from which no string can be read inside the
    array: the call has no defined behaviour. *)
Lemma responseCallback_past_end buf length context :
  read_at buf (lastLength context) = None ->
  responseCallback 0 (Some buf) length context = None.
Proof.
  intros Hr. unfold responseCallback, address_of_index.
  now rewrite (printf_string_undefined _ _ Hr).
Qed.

(** So a snapshot shorter than the one before it is not safe to hand to
    the callback. *)
Lemma shrinking_stream_undefined :
  deliver main_context [success "Hello"; success "He"] = None.
Proof. reflexivity. Qed.

(** Whenever the callback returns, the flag it leaves is the one it
    found, cleared if the invocation was terminal. *)
Lemma call_flag context i context' t :
  call context i = Some (context', t) ->
  isResponding context' = isResponding context && negb (is_terminal i).
Proof.
  destruct i as [status content length]. unfold call, is_terminal, has_content. simpl.
  destruct (Z.eq_dec status 0) as [->|Hs].
  - destruct content as [buf|].
    + unfold responseCallback. cbn [Z.eqb negb].
      destruct (printf content_format _); [|discriminate].
      intros [= <- _]. simpl. now rewrite andb_true_r.
    + rewrite responseCallback_done. intros [= <- _]. simpl.
      now rewrite andb_false_r.
  - rewrite responseCallback_failure by assumption. intros [= <- _]. simpl.
    destruct (Z.eqb_spec status 0); [contradiction|]. simpl.
    now rewrite andb_false_r.
Qed.

Lemma call_terminal context i :
  is_terminal i = true ->
  exists t, call context i
            = Some ({| lastLength := lastLength context; isResponding := false |}, t)
            /\ existsb is_load t = false.
Proof.
  destruct i as [status content length]. unfold call, is_terminal, has_content. simpl.
  destruct (Z.eq_dec status 0) as [->|Hs].
  - destruct content as [buf|]; simpl; [discriminate|]. intros _.
    rewrite responseCallback_done. eexists; split; reflexivity.
  - intros _. rewrite responseCallback_failure by assumption.
    eexists; split; reflexivity.
Qed.

Lemma deliver_app context invs1 invs2 context1 ts1 :
  deliver context invs1 = Some (context1, ts1) ->
  deliver context (invs1 ++ invs2)
  = match deliver context1 invs2 with
    | Some (final, ts2) => Some (final, ts1 ++ ts2)
    | None => None
    end.
Proof.
  revert context context1 ts1.
  induction invs1 as [|i rest IH]; intros context context1 ts1; simpl.
  - intros [= <- <-]. destruct (deliver context invs2) as [[? ?]|]; reflexivity.
  - destruct (call context i) as [[c t]|]; [|discriminate].
    destruct (deliver c rest) as [[c1 ts]|] eqn:Er; [|discriminate].
    intros [= <- <-]. rewrite (IH _ _ _ Er).
    destruct (deliver c1 invs2) as [[? ?]|]; reflexivity.
Qed.

End CallbackSteps.

(* ===================================================================== *)
(** ** The failure branch *)
(* ===================================================================== *)

Section FailureBranch.
Import CString Stdio Header Example.

Lemma string_of_uint_digit (d : Decimal.uint) :
  d <> Decimal.Nil ->
  exists a rest, NilEmpty.string_of_uint d = String a rest
                 /\ is_digit (Ascii.byte_of_ascii a) = true.
Proof.
  destruct d; intros H; try contradiction; simpl; do 2 eexists; split;
    reflexivity.
Qed.

(** The decimal rendering of an integer holds at least one digit. *)
Lemma decimal_has_digit z :
  exists b, In b (decimal z) /\ is_digit b = true.
Proof.
  unfold decimal.
  assert (forall d : Decimal.uint,
             exists b, In b (list_byte_of_string (NilZero.string_of_uint d))
                       /\ is_digit b = true) as Hu.
  { intros d. destruct d.
    1: { exists "0"%byte. split; [left|]; reflexivity. }
    all: unfold NilZero.string_of_uint;
      match goal with
      | |- context [NilEmpty.string_of_uint ?d] =>
          destruct (string_of_uint_digit d ltac:(discriminate))
            as (a & rest & -> & Ha)
      end;
      exists (Ascii.byte_of_ascii a); split; [left; reflexivity | exact Ha]. }
  destruct (Z.to_int z) as [d|d]; simpl.
  - apply Hu.
  - destruct (Hu d) as (b & Hin & Hb). exists b. split; [right; exact Hin | exact Hb].
Qed.

Lemma no_digit_no_decimal (msg : list byte) z pre post :
  existsb is_digit msg = false -> msg <> pre ++ decimal z ++ post.
Proof.
  intros Hno ->. destruct (decimal_has_digit z) as (b & Hin & Hb).
  assert (existsb is_digit (pre ++ decimal z ++ post) = true) as Hex.
  { apply existsb_exists. exists b. split; [|exact Hb].
    apply in_or_app; right. apply in_or_app; left. exact Hin. }
  congruence.
Qed.

(** C10.  Called with a nonzero status, [responseCallback] returns
    after a single write of the literal
    ["Failed to respond (error: (status))"]: it clears [isResponding],
    leaves [lastLength] as it was and loads nothing from [content].
    The literal holds no [%], so [printf] formats no argument (the
    status would be ignored even if it were passed), and the decimal
    rendering of the status occurs nowhere in what is printed. *)
Theorem responseCallback_failure_message status content length context :
  status <> 0%Z ->
  responseCallback status content length context
  = Some ({| lastLength := lastLength context; isResponding := false |},
          [Write failure_format])
  /\ existsb (Byte.eqb percent) failure_format = false
  /\ format failure_format [ArgInt status] = format failure_format []
  /\ (forall pre post, failure_format <> pre ++ decimal status ++ post).
Proof.
  intros Hs. split; [now apply responseCallback_failure|].
  split; [reflexivity|]. split; [reflexivity|].
  intros pre post. now apply no_digit_no_decimal.
Qed.

Lemma responseCallback_failure_message_witness :
  (7 <> 0)%Z /\
  responseCallback 7 (Some [x68; x69; x00]) 2 {| lastLength := 1; isResponding := true |}
  = Some ({| lastLength := 1; isResponding := false |}, [Write failure_format]).
Proof.
  split; [discriminate|].
  exact (proj1 (responseCallback_failure_message 7 (Some [x68; x69; x00]) 2
                  {| lastLength := 1; isResponding := true |} ltac:(discriminate))).
Defined.

End FailureBranch.

(* ===================================================================== *)
(** ** Memory safety of the reads *)
(* ===================================================================== *)

Section ReadsInBounds.
Import CString Stdio Header Example.

Lemma cursor_below_step context i rest :
  length_reported i ->
  cursor_below context (i :: rest) ->
  read_in_bounds context i /\
  exists context' t,
    call context i = Some (context', t) /\ cursor_below context' rest.
Proof.
  destruct i as [status content length].
  unfold length_reported, cursor_below, read_in_bounds, call, has_content.
  cbn [inv_status inv_content inv_length filter].
  intros Hlen Hc. destruct content as [buf|].
  - cbn [map] in Hc.
    destruct (strlen_inv _ _ (Hlen buf eq_refl)) as (s & Hs & ->).
    assert (lastLength context <= N.of_nat (List.length s))%N as Hle
        by (simpl in Hc; tauto).
    pose proof (read_at_suffix _ _ _ Hs Hle) as Hr.
    split.
    + intros buf' _ [= <-]. split; [exact Hle|].
      eexists; split; [exact Hr|]. now apply read_at_in_bounds.
    + destruct (Z.eq_dec status 0) as [->|Hst].
      * rewrite (responseCallback_content buf s _ context Hs Hle).
        do 2 eexists; split; [reflexivity|]. cbn [lastLength].
        now apply chain_cons_inv in Hc.
      * rewrite responseCallback_failure by assumption.
        do 2 eexists; split; [reflexivity|]. cbn [lastLength].
        now apply chain_le_skip in Hc.
  - split; [intros buf' _ [=]|].
    destruct (Z.eq_dec status 0) as [->|Hst].
    + rewrite responseCallback_done. do 2 eexists; split; [reflexivity|exact Hc].
    + rewrite responseCallback_failure by assumption.
      do 2 eexists; split; [reflexivity|exact Hc].
Qed.

Lemma cursor_below_deliver pre :
  forall context i post,
    Forall length_reported (pre ++ i :: post) ->
    cursor_below context (pre ++ i :: post) ->
    exists context' ts,
      deliver context pre = Some (context', ts) /\
      cursor_below context' (i :: post).
Proof.
  induction pre as [|j pre IH]; intros context i post Hlen Hc.
  - simpl. now exists context, [].
  - simpl in Hlen. inversion Hlen as [|? ? Hj Hrest]; subst.
    destruct (cursor_below_step _ _ _ Hj Hc) as (_ & c & t & Hcall & Hc').
    destruct (IH c i post Hrest Hc') as (c' & ts & Hd & Hc'').
    exists c', (t :: ts). simpl. rewrite Hcall, Hd. now split.
Qed.

(** C9.  [responseCallback] loads nothing from [content] when [content]
    is null or the status is nonzero: the call is defined and its trace
    has no load.  And on every sequence of invocations whose reported
    lengths are the true string lengths and never shrink, started from
    the context [main] sets up, each invocation finds a context in
    which its read at [lastLength] is in bounds: [lastLength] is at
    most the reported length and the string read ends inside the
    array; the call itself is defined. *)
Theorem responseCallback_reads_in_bounds :
  (forall status content length context,
      status <> 0%Z \/ content = None ->
      exists context' t,
        responseCallback status content length context = Some (context', t)
        /\ existsb is_load t = false)
  /\
  (forall pre i post,
      Forall length_reported (pre ++ i :: post) ->
      lengths_nondecreasing (pre ++ i :: post) ->
      exists context ts,
        deliver main_context pre = Some (context, ts)
        /\ read_in_bounds context i
        /\ exists r, call context i = Some r).
Proof.
  split.
  - intros status content length context [Hs | ->].
    + rewrite responseCallback_failure by assumption.
      do 2 eexists; split; reflexivity.
    + destruct (Z.eq_dec status 0) as [->|Hs].
      * rewrite responseCallback_done. do 2 eexists; split; reflexivity.
      * rewrite responseCallback_failure by assumption.
        do 2 eexists; split; reflexivity.
  - intros pre i post Hlen Hnd.
    assert (cursor_below main_context (pre ++ i :: post)) as Hc.
    { unfold cursor_below, lengths_nondecreasing in *. cbn [lastLength main_context].
      destruct (map inv_length _) as [|a l]; [exact I|].
      split; [lia | exact Hnd]. }
    destruct (cursor_below_deliver pre _ i post Hlen Hc) as (c & ts & Hd & Hc').
    assert (length_reported i) as Hi.
    { apply Forall_app in Hlen. destruct Hlen as [_ Hlen].
      now inversion Hlen. }
    destruct (cursor_below_step _ _ _ Hi Hc') as (Hb & c' & t & Hcall & _).
    exists c, ts. split; [exact Hd|]. split; [exact Hb|]. now exists (c', t).
Qed.

End ReadsInBounds.

Section ReadsInBoundsWitness.
Import CString Stdio Header Example.

Lemma sample_stream_lengths : Forall length_reported sample_stream.
Proof. repeat constructor; intros buf [= <-]; reflexivity. Qed.

Lemma responseCallback_reads_in_bounds_witness :
  Forall length_reported ([success "He"] ++ success "Hello" :: [end_of_stream])
  /\ lengths_nondecreasing ([success "He"] ++ success "Hello" :: [end_of_stream])
  /\ exists context ts,
       deliver main_context [success "He"] = Some (context, ts)
       /\ read_in_bounds context (success "Hello")
       /\ exists r, call context (success "Hello") = Some r.
Proof.
  assert (lengths_nondecreasing ([success "He"] ++ success "Hello" :: [end_of_stream]))
    as Hnd by (unfold lengths_nondecreasing; simpl; lia).
  split; [exact sample_stream_lengths|]. split; [exact Hnd|].
  exact (proj2 responseCallback_reads_in_bounds
           [success "He"] (success "Hello") [end_of_stream]
           sample_stream_lengths Hnd).
Defined.

End ReadsInBoundsWitness.

(* ===================================================================== *)
(** ** What a stream prints *)
(* ===================================================================== *)

Section PrintedText.
Import CString Stdio Header Example.

Lemma last_cons {A} (a d : A) l : last (a :: l) d = last l a.
Proof.
  revert a d; induction l as [|b l IH]; intros a d; [reflexivity|].
  change (last (a :: b :: l) d) with (last (b :: l) d).
  rewrite (IH b d), (IH b a). reflexivity.
Qed.

Lemma skipn_length_app {A} (l k : list A) : skipn (List.length l) (l ++ k) = k.
Proof. induction l; simpl; auto. Qed.

(** The invariant of the cursor: [lastLength] is the length of the
    text [prev] printed so far, and [prev] is what every later
    snapshot starts with. *)
Lemma deliver_prints_suffixes invs :
  forall prev context,
    lastLength context = N.of_nat (List.length prev) ->
    Forall (fun i => inv_status i = 0%Z) invs ->
    Forall length_reported invs ->
    chain prefix (prev :: snapshots invs) ->
    exists final ts,
      deliver context invs = Some (final, ts)
      /\ prev ++ content_output invs ts = last (snapshots invs) prev
      /\ lastLength final = N.of_nat (List.length (last (snapshots invs) prev))
      /\ Forall2 (fun i t => has_content i = false -> t = [Write done_format]) invs ts
      /\ (forallb has_content invs = true -> output ts = content_output invs ts).
Proof.
  induction invs as [|i rest IH]; intros prev context Hcur Hst Hlen Hch.
  - exists context, []. simpl. rewrite app_nil_r. repeat split; auto.
  - inversion Hst as [|? ? Hi0 Hst']; subst.
    inversion Hlen as [|? ? Hil Hlen']; subst.
    destruct i as [status content length]. simpl in Hi0. subst status.
    unfold length_reported in Hil. cbn [inv_content inv_length] in Hil.
    destruct content as [buf|].
    + destruct (strlen_inv _ _ (Hil buf eq_refl)) as (s & Hs & ->).
      assert (snapshots ({| inv_status := 0; inv_content := Some buf;
                            inv_length := N.of_nat (List.length s) |} :: rest)
              = s :: snapshots rest) as Hsn
          by (simpl; unfold snapshot_of; simpl; now rewrite Hs).
      rewrite Hsn in *. destruct Hch as [[k ->] Hch].
      assert (lastLength context <= N.of_nat (List.length (prev ++ k)))%N as Hle
          by (rewrite Hcur, length_app; lia).
      destruct (IH (prev ++ k) {| lastLength := N.of_nat (List.length (prev ++ k));
                                 isResponding := isResponding context |}
                  eq_refl Hst' Hlen' Hch) as (final & ts & Hd & Hout & Hfin & Hnull & Hall).
      pose proof (responseCallback_content buf (prev ++ k)
                    (N.of_nat (List.length (prev ++ k))) context Hs Hle) as Hcall.
      rewrite Hcur, Nat2N.id, skipn_length_app in Hcall.
      eexists final, (_ :: ts). cbn [deliver]. unfold call.
      cbn [inv_status inv_content inv_length]. rewrite Hcall, Hd.
      split; [reflexivity|]. rewrite last_cons.
      cbn [content_output has_content inv_content stdout_of flat_map written].
      rewrite !app_nil_r. split; [now rewrite app_assoc|]. split; [exact Hfin|].
      split; [constructor; [discriminate | exact Hnull]|].
      intros Hf. cbn [forallb has_content inv_content andb] in Hf.
      unfold output in *. cbn [flat_map stdout_of written]. rewrite !app_nil_r.
      now rewrite (Hall Hf).
    + assert (snapshots ({| inv_status := 0; inv_content := None;
                            inv_length := length |} :: rest)
              = snapshots rest) as Hsn by reflexivity.
      rewrite Hsn in *.
      destruct (IH prev {| lastLength := lastLength context; isResponding := false |}
                  Hcur Hst' Hlen' Hch) as (final & ts & Hd & Hout & Hfin & Hnull & Hall).
      eexists final, (_ :: ts). cbn [deliver]. unfold call.
      cbn [inv_status inv_content inv_length]. rewrite responseCallback_done, Hd.
      split; [reflexivity|]. split; [exact Hout|]. split; [exact Hfin|].
      split; [constructor; [reflexivity | exact Hnull]|].
      intros Hf. discriminate Hf.
Qed.

(** The context an invocation finds after the invocations [pre] before
    it: the cursor is at the end of the last snapshot of [pre], which
    every later snapshot starts with. *)
Lemma deliver_cursor pre :
  forall prev context i post,
    lastLength context = N.of_nat (List.length prev) ->
    Forall (fun i => inv_status i = 0%Z) (pre ++ i :: post) ->
    Forall length_reported (pre ++ i :: post) ->
    chain prefix (prev :: snapshots (pre ++ i :: post)) ->
    exists context' ts,
      deliver context pre = Some (context', ts)
      /\ lastLength context' = N.of_nat (List.length (last (snapshots pre) prev))
      /\ chain prefix (last (snapshots pre) prev :: snapshots (i :: post)).
Proof.
  induction pre as [|j pre IH]; intros prev context i post Hcur Hst Hlen Hch.
  - exists context, []. simpl. now repeat split.
  - inversion Hst as [|? ? Hj0 Hst']; subst.
    inversion Hlen as [|? ? Hjl Hlen']; subst.
    destruct j as [status content length]. simpl in Hj0. subst status.
    unfold length_reported in Hjl. cbn [inv_content inv_length] in Hjl.
    destruct content as [buf|].
    + destruct (strlen_inv _ _ (Hjl buf eq_refl)) as (s & Hs & ->).
      assert (forall l, snapshots ({| inv_status := 0; inv_content := Some buf;
                                      inv_length := N.of_nat (List.length s) |} :: l)
                        = s :: snapshots l) as Hsn
          by (intros l; simpl; unfold snapshot_of; simpl; now rewrite Hs).
      change ((?a :: pre) ++ i :: post) with (a :: (pre ++ i :: post)) in Hch.
      rewrite Hsn in *. destruct Hch as [[k Hk] Hch].
      assert (lastLength context <= N.of_nat (List.length s))%N as Hle
          by (rewrite Hcur, Hk, length_app; lia).
      destruct (IH s {| lastLength := N.of_nat (List.length s);
                        isResponding := isResponding context |} i post
                  eq_refl Hst' Hlen' Hch) as (c & ts & Hd & Hc & Hch').
      eexists c, (_ :: ts). cbn [deliver]. unfold call.
      cbn [inv_status inv_content inv_length].
      rewrite (responseCallback_content buf s _ context Hs Hle), Hd.
      rewrite last_cons. now repeat split.
    + change ((?a :: pre) ++ i :: post) with (a :: (pre ++ i :: post)) in Hch.
      assert (forall l, snapshots ({| inv_status := 0; inv_content := None;
                                      inv_length := length |} :: l)
                        = snapshots l) as Hsn by reflexivity.
      rewrite Hsn in *.
      destruct (IH prev {| lastLength := lastLength context; isResponding := false |}
                  i post Hcur Hst' Hlen' Hch) as (c & ts & Hd & Hc & Hch').
      eexists c, (_ :: ts). cbn [deliver]. unfold call.
      cbn [inv_status inv_content inv_length].
      rewrite responseCallback_done, Hd. now repeat split.
Qed.

End PrintedText.

Section FinalSnapshot.
Import CString Stdio Header Example.

Lemma chain_prefix_nil l : chain prefix l -> chain prefix ([] :: l).
Proof. destruct l as [|s l]; [exact (fun H => H)|]. intros H. split; [now exists s | exact H]. Qed.

(** C1, as the code has it.  On a sequence of invocations with status 0
    whose non-null snapshots each start with the previous one and whose
    reported lengths are the snapshots' lengths, run from
    [lastLength = 0]: every invocation with content finds the cursor at
    the length of the previous snapshot (0 when there is none), prints
    the suffix of its snapshot from there and leaves the cursor at its
    reported length.  Every call is defined; what the invocations with
    content print, concatenated, is the last snapshot (nothing when
    there is none); every invocation with null content prints the end
    marker [done_format] and nothing else.  When no invocation has null
    content, all that is printed is the last snapshot. *)
Theorem responseCallback_prints_final_snapshot invs :
  Forall (fun i => inv_status i = 0%Z) invs ->
  Forall length_reported invs ->
  chain prefix (snapshots invs) ->
  (forall pre i post buf,
      invs = pre ++ i :: post ->
      inv_content i = Some buf ->
      exists context ts s t context',
        deliver main_context pre = Some (context, ts)
        /\ lastLength context = N.of_nat (List.length (last (snapshots pre) []))
        /\ until_nul buf = Some s
        /\ call context i = Some (context', t)
        /\ stdout_of t = skipn (N.to_nat (lastLength context)) s
        /\ lastLength context' = inv_length i)
  /\ exists final ts,
      deliver main_context invs = Some (final, ts)
      /\ content_output invs ts = last (snapshots invs) []
      /\ lastLength final = N.of_nat (List.length (last (snapshots invs) []))
      /\ Forall2 (fun i t => has_content i = false -> t = [Write done_format]) invs ts
      /\ (forallb has_content invs = true -> output ts = last (snapshots invs) []).
Proof.
  intros Hst Hlen Hch. apply chain_prefix_nil in Hch. split.
  - intros pre i post buf -> Hbuf.
    destruct (deliver_cursor pre [] main_context i post eq_refl Hst Hlen Hch)
      as (c & ts & Hd & Hcur & Hch').
    apply Forall_app in Hst, Hlen. destruct Hst as [_ Hst], Hlen as [_ Hlen].
    inversion Hst as [|? ? Hi0 _]; inversion Hlen as [|? ? Hil _]; subst.
    destruct i as [status content length]. simpl in Hi0, Hbuf. subst status content.
    destruct (strlen_inv _ _ (Hil buf eq_refl)) as (s & Hs & Hl).
    cbn [inv_length] in Hl. subst length.
    assert (prefix (last (snapshots pre) []) s) as [k Hk].
    { simpl in Hch'. unfold snapshot_of in Hch'. simpl in Hch'. rewrite Hs in Hch'.
      tauto. }
    assert (lastLength c <= N.of_nat (List.length s))%N as Hle
        by (rewrite Hcur, Hk, length_app; lia).
    exists c, ts, s. do 2 eexists. split; [exact Hd|]. split; [exact Hcur|].
    split; [exact Hs|]. unfold call. cbn [inv_status inv_content inv_length].
    rewrite (responseCallback_content buf s _ c Hs Hle).
    split; [reflexivity|]. split; [|reflexivity].
    simpl. now rewrite app_nil_r.
  - destruct (deliver_prints_suffixes invs [] main_context eq_refl Hst Hlen Hch)
      as (final & ts & Hd & Hout & Hfin & Hnull & Hall).
    exists final, ts. simpl in Hout.
    repeat split; try assumption.
    intros Hf. now rewrite (Hall Hf).
Qed.

Lemma sample_stream_status : Forall (fun i => inv_status i = 0%Z) sample_stream.
Proof. repeat constructor. Qed.

Lemma sample_stream_prefixes : chain prefix (snapshots sample_stream).
Proof. split; [|exact I]. now exists (list_byte_of_string "llo"). Qed.

Lemma responseCallback_prints_final_snapshot_witness :
  Forall (fun i => inv_status i = 0%Z) sample_stream
  /\ Forall length_reported sample_stream
  /\ chain prefix (snapshots sample_stream)
  /\ exists final ts,
      deliver main_context sample_stream = Some (final, ts)
      /\ content_output sample_stream ts = last (snapshots sample_stream) []
      /\ lastLength final = N.of_nat (List.length (last (snapshots sample_stream) []))
      /\ Forall2 (fun i t => has_content i = false -> t = [Write done_format])
           sample_stream ts
      /\ (forallb has_content sample_stream = true ->
          output ts = last (snapshots sample_stream) []).
Proof.
  split; [exact sample_stream_status|].
  split; [exact sample_stream_lengths|].
  split; [exact sample_stream_prefixes|].
  exact (proj2 (responseCallback_prints_final_snapshot sample_stream
                  sample_stream_status sample_stream_lengths sample_stream_prefixes)).
Defined.

(** C1 as stated fails on a stream that ends the way the protocol ends
    it: the two snapshots ["He"], ["Hello"] and the null-content
    invocation satisfy the hypotheses, and what is printed is ["Hello"]
    followed by the end marker, not the last snapshot alone. *)
Lemma responseCallback_prints_end_marker :
  Forall (fun i => inv_status i = 0%Z) sample_stream
  /\ Forall length_reported sample_stream
  /\ chain prefix (snapshots sample_stream)
  /\ exists final ts,
      deliver main_context sample_stream = Some (final, ts)
      /\ last (snapshots sample_stream) [] = list_byte_of_string "Hello"
      /\ output ts = list_byte_of_string "Hello" ++ done_format
      /\ output ts <> last (snapshots sample_stream) [].
Proof.
  split; [exact sample_stream_status|].
  split; [exact sample_stream_lengths|].
  split; [exact sample_stream_prefixes|].
  eexists _, _. split; [reflexivity|].
  split; [reflexivity|]. split; [reflexivity|]. discriminate.
Qed.

End FinalSnapshot.

(* ===================================================================== *)
(** ** The busy-wait of [main] *)
(* ===================================================================== *)

Section BusyWait.
Import CString Stdio Header Example.

Lemma cursor_below_deliver_app pre :
  forall post context,
    Forall length_reported pre ->
    cursor_below context (pre ++ post) ->
    exists context' ts,
      deliver context pre = Some (context', ts)
      /\ cursor_below context' post
      /\ isResponding context'
         = isResponding context && forallb (fun i => negb (is_terminal i)) pre.
Proof.
  induction pre as [|j pre IH]; intros post context Hlen Hc.
  - exists context, []. simpl. now rewrite andb_true_r.
  - inversion Hlen as [|? ? Hj Hrest]; subst.
    destruct (cursor_below_step _ _ _ Hj Hc) as (_ & c & t & Hcall & Hc').
    destruct (IH post c Hrest Hc') as (c' & ts & Hd & Hc'' & Hflag).
    exists c', (t :: ts). simpl. rewrite Hcall, Hd.
    split; [reflexivity|]. split; [exact Hc''|].
    rewrite Hflag, (call_flag _ _ _ _ Hcall). now rewrite andb_assoc.
Qed.

Lemma forallb_not_terminal body :
  Forall (fun i => is_terminal i = false) body ->
  forallb (fun i => negb (is_terminal i)) body = true.
Proof.
  intros H. apply forallb_forall. intros i Hi.
  rewrite Forall_forall in H. now rewrite (H i Hi).
Qed.

Lemma Forall_firstn {A} (P : A -> Prop) k l : Forall P l -> Forall P (firstn k l).
Proof.
  intros H. rewrite <- (firstn_skipn k l) in H. now apply Forall_app in H.
Qed.

Lemma Forall_skipn {A} (P : A -> Prop) k l : Forall P l -> Forall P (skipn k l).
Proof.
  intros H. rewrite <- (firstn_skipn k l) in H. now apply Forall_app in H.
Qed.

(** [k] invocations of the body are delivered: the loop keeps going. *)
Lemma deliver_body_part k body final_inv context :
  k <= List.length body ->
  isResponding context = true ->
  Forall (fun i => is_terminal i = false) body ->
  Forall length_reported body ->
  cursor_below context body ->
  exists context' ts,
    deliver context (firstn k (body ++ [final_inv])) = Some (context', ts)
    /\ skipn k (body ++ [final_inv]) = skipn k body ++ [final_inv]
    /\ isResponding context' = true
    /\ cursor_below context' (skipn k body).
Proof.
  intros Hk Hflag Hnt Hlen Hc.
  rewrite firstn_app, skipn_app.
  replace (k - List.length body) with 0 by lia. simpl. rewrite app_nil_r.
  rewrite <- (firstn_skipn k body) in Hc.
  destruct (cursor_below_deliver_app (firstn k body) (skipn k body) context
              (Forall_firstn _ k _ Hlen) Hc) as (c & ts & Hd & Hc' & Hf).
  exists c, ts. split; [exact Hd|]. split; [reflexivity|]. split; [|exact Hc'].
  rewrite Hf, Hflag. apply forallb_not_terminal. now apply Forall_firstn.
Qed.

(** The terminal invocation is among those delivered: the loop ends. *)
Lemma deliver_body_all k body final_inv context :
  List.length body < k ->
  Forall length_reported body ->
  cursor_below context body ->
  is_terminal final_inv = true ->
  exists context' ts,
    deliver context (firstn k (body ++ [final_inv])) = Some (context', ts)
    /\ skipn k (body ++ [final_inv]) = []
    /\ isResponding context' = false.
Proof.
  intros Hk Hlen Hc Hterm.
  rewrite firstn_all2, skipn_all2 by (rewrite length_app; simpl; lia).
  rewrite <- (app_nil_r body) in Hc.
  destruct (cursor_below_deliver_app body [] context Hlen Hc)
    as (c & ts & Hd & _ & _).
  destruct (call_terminal c final_inv Hterm) as (t & Hcall & _).
  rewrite (deliver_app _ _ [final_inv] _ _ Hd). simpl. rewrite Hcall.
  do 2 eexists. split; [reflexivity|]. now split.
Qed.

(** [k] invocations of the body are delivered, whatever follows the
    body. *)
Lemma deliver_body_prefix k body tail context :
  k <= List.length body ->
  isResponding context = true ->
  Forall (fun i => is_terminal i = false) body ->
  Forall length_reported body ->
  cursor_below context body ->
  exists context' ts,
    deliver context (firstn k (body ++ tail)) = Some (context', ts)
    /\ skipn k (body ++ tail) = skipn k body ++ tail
    /\ isResponding context' = true
    /\ cursor_below context' (skipn k body).
Proof.
  intros Hk Hflag Hnt Hlen Hc.
  rewrite firstn_app, skipn_app.
  replace (k - List.length body) with 0 by lia. simpl. rewrite app_nil_r.
  rewrite <- (firstn_skipn k body) in Hc.
  destruct (cursor_below_deliver_app (firstn k body) (skipn k body) context
              (Forall_firstn _ k _ Hlen) Hc) as (c & ts & Hd & Hc' & Hf).
  exists c, ts. split; [exact Hd|]. split; [reflexivity|]. split; [|exact Hc'].
  rewrite Hf, Hflag. apply forallb_not_terminal. now apply Forall_firstn.
Qed.

(** The evaluations made before the terminal invocation: whether they
    load the flag or not, they see [true] and the loop goes on. *)
Lemma busy_wait_before pre :
  forall body tail later context n0,
    isResponding context = true ->
    Forall (fun i => is_terminal i = false) body ->
    Forall length_reported body ->
    cursor_below context body ->
    completed pre <= List.length body ->
    exists context',
      busy_wait_seen true context (body ++ tail) (pre ++ later) n0
      = busy_wait_seen true context' (skipn (completed pre) body ++ tail) later
          (n0 + List.length pre)
      /\ isResponding context' = true
      /\ cursor_below context' (skipn (completed pre) body).
Proof.
  unfold completed.
  induction pre as [|[j l] pre IH]; intros body tail later context n0 Hflag Hnt Hlen Hc Hsum.
  - exists context. simpl. rewrite Nat.add_0_r. now repeat split.
  - change (list_sum (map fst ((j, l) :: pre))) with (j + list_sum (map fst pre)) in *.
    cbn [app busy_wait_seen].
    destruct (deliver_body_prefix j body tail context ltac:(lia) Hflag Hnt Hlen Hc)
      as (c & ts & Hd & Hskip & Hf & Hc').
    rewrite Hd, Hf, Hskip.
    replace (if l then true else true) with true by (now destruct l).
    destruct (IH (skipn j body) tail later c (S n0) Hf (Forall_skipn _ j _ Hnt)
                (Forall_skipn _ j _ Hlen) Hc') as (c' & Hb & Hf' & Hc'').
    { rewrite length_skipn. lia. }
    rewrite skipn_skipn in Hb, Hc''.
    replace (list_sum (map fst pre) + j) with (j + list_sum (map fst pre)) in Hb, Hc''
      by lia.
    replace (S n0 + List.length pre) with (n0 + S (List.length pre)) in Hb by lia.
    exists c'. cbn [List.length]. now repeat split.
Qed.

(** Once the terminal invocation has been made, the first evaluation
    that loads the flag ends the loop. *)
Lemma busy_wait_after pre :
  forall context n0 k post,
    isResponding context = false ->
    exists n,
      busy_wait_seen true context [] (pre ++ (k, true) :: post) n0
      = Exited context n []
      /\ n <= n0 + List.length pre + 1.
Proof.
  induction pre as [|[j l] pre IH]; intros context n0 k post Hflag.
  - cbn [app busy_wait_seen]. rewrite firstn_nil, skipn_nil. cbn [deliver]. rewrite Hflag.
    exists (S n0). split; [reflexivity | simpl; lia].
  - cbn [app busy_wait_seen]. rewrite firstn_nil, skipn_nil. cbn [deliver]. rewrite Hflag.
    destruct l.
    + exists (S n0). split; [reflexivity | simpl; lia].
    + destruct (IH context (S n0) k post Hflag) as (n & Hb & Hn).
      exists n. split; [exact Hb | simpl; lia].
Qed.

(** ... and without such an evaluation the loop goes on. *)
Lemma busy_wait_after_cached schedule :
  forall context n0,
    never_loads schedule ->
    busy_wait_seen true context [] schedule n0 = Spinning context [].
Proof.
  induction schedule as [|[j l] schedule IH]; intros context n0 Hstale; [reflexivity|].
  inversion Hstale as [|? ? Hl Hstale']; subst. simpl in Hl. subst l.
  cbn [busy_wait_seen]. rewrite firstn_nil, skipn_nil. cbn [deliver].
  now apply IH.
Qed.

(** The loop ends when an evaluation made after the terminal invocation
    loads the flag. *)
Lemma busy_wait_exits final_inv pre :
  forall body context n0 k post,
    isResponding context = true ->
    Forall (fun i => is_terminal i = false) body ->
    is_terminal final_inv = true ->
    Forall length_reported body ->
    cursor_below context body ->
    List.length body < completed pre + k ->
    exists context' n,
      busy_wait_seen true context (body ++ [final_inv]) (pre ++ (k, true) :: post) n0
      = Exited context' n []
      /\ isResponding context' = false
      /\ n <= n0 + List.length pre + 1.
Proof.
  unfold completed.
  induction pre as [|[j l] pre IH];
    intros body context n0 k post Hflag Hnt Hterm Hlen Hc Hsum.
  - simpl in Hsum. cbn [app busy_wait_seen].
    destruct (deliver_body_all k body final_inv context Hsum Hlen Hc Hterm)
      as (c & ts & Hd & Hskip & Hf).
    rewrite Hd, Hf, Hskip. exists c, (S n0).
    split; [reflexivity|]. split; [exact Hf | simpl; lia].
  - change (list_sum (map fst ((j, l) :: pre))) with (j + list_sum (map fst pre)) in *.
    cbn [app busy_wait_seen].
    destruct (Nat.le_gt_cases j (List.length body)) as [Hj|Hj].
    + destruct (deliver_body_part j body final_inv context Hj Hflag Hnt Hlen Hc)
        as (c & ts & Hd & Hskip & Hf & Hc').
      rewrite Hd, Hf, Hskip.
      replace (if l then true else true) with true by (now destruct l).
      destruct (IH (skipn j body) c (S n0) k post Hf (Forall_skipn _ j _ Hnt) Hterm
                  (Forall_skipn _ j _ Hlen) Hc') as (c' & n & Hb & Hf' & Hn).
      { rewrite length_skipn. lia. }
      exists c', n. split; [exact Hb|]. split; [exact Hf' | simpl; lia].
    + destruct (deliver_body_all j body final_inv context Hj Hlen Hc Hterm)
        as (c & ts & Hd & Hskip & Hf).
      rewrite Hd, Hf, Hskip. destruct l.
      * exists c, (S n0). split; [reflexivity|]. split; [exact Hf | simpl; lia].
      * destruct (busy_wait_after pre c (S n0) k post Hf) as (n & Hb & Hn).
        exists c, n. split; [exact Hb|]. split; [exact Hf | simpl; lia].
Qed.

(** As long as the terminal invocation has not been made the loop goes
    on. *)
Lemma busy_wait_spins final_inv schedule :
  forall body context n0,
    isResponding context = true ->
    Forall (fun i => is_terminal i = false) body ->
    Forall length_reported body ->
    cursor_below context body ->
    completed schedule <= List.length body ->
    exists context' rest,
      busy_wait_seen true context (body ++ [final_inv]) schedule n0
      = Spinning context' rest
      /\ isResponding context' = true.
Proof.
  intros body context n0 Hflag Hnt Hlen Hc Hsum.
  destruct (busy_wait_before schedule body [final_inv] [] context n0
              Hflag Hnt Hlen Hc Hsum) as (c & Hb & Hf & _).
  rewrite app_nil_r in Hb. rewrite Hb. cbn [busy_wait_seen]. now eauto.
Qed.

(** A loop that no longer loads the flag goes on, whatever is
    delivered: also once the terminal invocation has been made and the
    flag in memory is [false]. *)
Lemma busy_wait_cached final_inv schedule :
  forall body context n0,
    isResponding context = true ->
    Forall (fun i => is_terminal i = false) body ->
    is_terminal final_inv = true ->
    Forall length_reported body ->
    cursor_below context body ->
    never_loads schedule ->
    exists context' rest,
      busy_wait_seen true context (body ++ [final_inv]) schedule n0
      = Spinning context' rest
      /\ (List.length body < completed schedule ->
          rest = [] /\ isResponding context' = false).
Proof.
  unfold completed.
  induction schedule as [|[j l] schedule IH];
    intros body context n0 Hflag Hnt Hterm Hlen Hc Hstale.
  - exists context, (body ++ [final_inv]). split; [reflexivity|]. simpl. lia.
  - inversion Hstale as [|? ? Hl Hstale']; subst. simpl in Hl. subst l.
    change (list_sum (map fst ((j, false) :: schedule)))
      with (j + list_sum (map fst schedule)).
    cbn [busy_wait_seen].
    destruct (Nat.le_gt_cases j (List.length body)) as [Hj|Hj].
    + destruct (deliver_body_part j body final_inv context Hj Hflag Hnt Hlen Hc)
        as (c & ts & Hd & Hskip & Hf & Hc').
      rewrite Hd, Hskip.
      destruct (IH (skipn j body) c (S n0) Hf (Forall_skipn _ j _ Hnt) Hterm
                  (Forall_skipn _ j _ Hlen) Hc' Hstale') as (c' & rest & Hb & Hdone).
      exists c', rest. split; [exact Hb|]. intros Hsum. apply Hdone.
      rewrite length_skipn. lia.
    + destruct (deliver_body_all j body final_inv context Hj Hlen Hc Hterm)
        as (c & ts & Hd & Hskip & Hf).
      rewrite Hd, Hskip. rewrite (busy_wait_after_cached schedule c (S n0) Hstale').
      exists c, []. split; [reflexivity|]. now split.
Qed.

End BusyWait.

Section BusyWaitTermination.
Import CString Stdio Header Example.

Lemma cursor_below_main invs :
  lengths_nondecreasing invs -> cursor_below main_context invs.
Proof.
  unfold cursor_below, lengths_nondecreasing. cbn [lastLength main_context].
  intros H. destruct (map inv_length _) as [|a l]; [exact I|].
  split; [lia | exact H].
Qed.

(** C4.  [main] arms the context with [isResponding = true]; an
    invocation of [responseCallback] that returns leaves the flag as it
    found it unless the invocation is terminal (null content or nonzero
    status), in which case it leaves [false]: the flag is cleared by
    terminal invocations only and never set again.  Whether the loop
    [while (context.isResponding);] ends is another matter, because
    nothing makes it load the flag again.  On a stream of non-terminal
    invocations (truthful, non-shrinking lengths) followed by one
    terminal invocation: if an evaluation of the condition made after
    the terminal invocation loads the flag, the loop exits there, with
    nothing left to deliver; if from some evaluation made before the
    terminal invocation on the loop reuses the value it loaded -- as an
    optimised build does -- it is still spinning at the end of every
    schedule, also when the terminal invocation has been made and the
    flag in memory is [false]. *)
Theorem busy_wait_depends_on_flag_load :
  isResponding main_context = true
  /\ (forall context i context' t,
         call context i = Some (context', t) ->
         isResponding context' = isResponding context && negb (is_terminal i))
  /\ (forall body final_inv pre post,
         Forall (fun i => is_terminal i = false) body ->
         is_terminal final_inv = true ->
         Forall length_reported body ->
         lengths_nondecreasing body ->
         (forall k,
             List.length body < completed pre + k ->
             exists context n,
               busy_wait main_context (body ++ [final_inv]) (pre ++ (k, true) :: post) 0
               = Exited context n []
               /\ isResponding context = false
               /\ n <= List.length pre + 1)
         /\
         (completed pre <= List.length body ->
          never_loads post ->
          exists context rest,
            busy_wait main_context (body ++ [final_inv]) (pre ++ post) 0
            = Spinning context rest
            /\ (List.length body < completed pre + completed post ->
                rest = [] /\ isResponding context = false))).
Proof.
  split; [reflexivity|]. split; [exact call_flag|].
  intros body final_inv pre post Hnt Hterm Hlen Hnd.
  pose proof (cursor_below_main body Hnd) as Hc.
  unfold busy_wait. cbn [isResponding main_context]. split.
  - intros k Hsum.
    destruct (busy_wait_exits final_inv pre body main_context 0 k post
                eq_refl Hnt Hterm Hlen Hc Hsum) as (c & n & Hb & Hf & Hn).
    exists c, n. now repeat split.
  - intros Hpre Hstale.
    destruct (busy_wait_before pre body [final_inv] post main_context 0
                eq_refl Hnt Hlen Hc Hpre) as (c & Hb & Hf & Hc').
    rewrite Hb.
    destruct (busy_wait_cached final_inv post (skipn (completed pre) body) c
                (0 + List.length pre) Hf (Forall_skipn _ _ _ Hnt) Hterm
                (Forall_skipn _ _ _ Hlen) Hc' Hstale) as (c' & rest & Hb' & Hdone).
    exists c', rest. split; [exact Hb'|]. intros Hsum. apply Hdone.
    rewrite length_skipn. lia.
Qed.

Lemma busy_wait_depends_on_flag_load_witness :
  Forall (fun i => is_terminal i = false) [success "He"; success "Hello"]
  /\ is_terminal end_of_stream = true
  /\ Forall length_reported [success "He"; success "Hello"]
  /\ lengths_nondecreasing [success "He"; success "Hello"]
  /\ completed [(1, true)] <= 2
  /\ never_loads [(2, false); (0, false); (0, false)]
  /\ 2 < completed [(1, true)] + completed [(2, false); (0, false); (0, false)]
  /\ exists context rest,
       busy_wait main_context ([success "He"; success "Hello"] ++ [end_of_stream])
         ([(1, true)] ++ [(2, false); (0, false); (0, false)]) 0
       = Spinning context rest
       /\ rest = [] /\ isResponding context = false.
Proof.
  assert (Forall (fun i => is_terminal i = false) [success "He"; success "Hello"])
    as H1 by (repeat constructor).
  assert (Forall length_reported [success "He"; success "Hello"])
    as H2 by (repeat constructor; intros buf [= <-]; reflexivity).
  assert (lengths_nondecreasing [success "He"; success "Hello"])
    as H3 by (unfold lengths_nondecreasing; simpl; lia).
  assert (completed [(1, true)] <= 2) as H4 by (cbv; lia).
  assert (never_loads [(2, false); (0, false); (0, false)])
    as H5 by (repeat constructor).
  assert (2 < completed [(1, true)] + completed [(2, false); (0, false); (0, false)])
    as H6 by (cbv; lia).
  split; [exact H1|]. split; [reflexivity|]. split; [exact H2|].
  split; [exact H3|]. split; [exact H4|]. split; [exact H5|]. split; [exact H6|].
  destruct (proj2 (proj2 (proj2 busy_wait_depends_on_flag_load)
                     [success "He"; success "Hello"] end_of_stream
                     [(1, true)] [(2, false); (0, false); (0, false)]
                     H1 eq_refl H2 H3) H4 H5) as (c & rest & Hb & Hdone).
  exists c, rest. split; [exact Hb | exact (Hdone H6)].
Defined.

End BusyWaitTermination.

(* ===================================================================== *)
(** ** The guide functions of the header *)
(* ===================================================================== *)

Section Guides.
Import Header.

(** C7 as stated fails: the function that attaches a min-items guide
    takes the property and the bound only; so does the one for
    max-items. *)
Lemma min_items_guide_not_wrapped :
  accepts_wrapped (guide_declaration MinItemsGuide) = false
  /\ accepts_wrapped (guide_declaration MaxItemsGuide) = false
  /\ ~ (forall k, accepts_wrapped (guide_declaration k) = true).
Proof.
  split; [reflexivity|]. split; [reflexivity|].
  intros H. specialize (H MinItemsGuide). discriminate H.
Qed.

(** C7, as the header has it.  The guide kinds are the eight of the
    closed set; the attachment functions for choice-enumeration,
    exact-count, minimum, maximum, range and regex-pattern take a
    [bool wrapped] as their last parameter; those for min-items and
    max-items take no such flag, only the property and an [int]. *)
Theorem guide_wrapped_flag k :
  In k guide_kinds
  /\ accepts_wrapped (guide_declaration k) = negb (is_items_guide k)
  /\ (is_items_guide k = false ->
      last (decl_params (guide_declaration k)) property_param = wrapped_param)
  /\ (is_items_guide k = true ->
      map param_type (decl_params (guide_declaration k))
      = [TGenerationSchemaPropertyRef; TInt]).
Proof.
  destruct k; simpl; (split; [tauto|]); (split; [reflexivity|]);
    split; intros H; try discriminate H; reflexivity.
Qed.

Lemma guide_wrapped_flag_witness :
  is_items_guide RangeGuide = false
  /\ last (decl_params (guide_declaration RangeGuide)) property_param = wrapped_param.
Proof.
  split; [reflexivity|].
  exact (proj1 (proj2 (proj2 (guide_wrapped_flag RangeGuide))) eq_refl).
Defined.

End Guides.

(* ===================================================================== *)
(** ** Reference counting *)
(* ===================================================================== *)

Section ReferenceCounting.
Import Bridge.

Lemma retains_acquired n :
  Nat.iter n FMRetain acquired = {| owners := S n; teardowns := 0; misuses := 0 |}.
Proof.
  induction n as [|n IH]; [reflexivity|].
  simpl. rewrite IH. reflexivity.
Qed.

Lemma releases_while_owned k :
  forall n t m,
    k <= n ->
    Nat.iter k FMRelease {| owners := S n; teardowns := t; misuses := m |}
    = {| owners := S n - k; teardowns := t; misuses := m |}.
Proof.
  induction k as [|k IH]; intros n t m Hk; [reflexivity|].
  simpl Nat.iter. rewrite IH by lia. unfold FMRelease. cbn [owners teardowns misuses].
  destruct (S n - k) as [|[|j]] eqn:E; try lia.
  f_equal. lia.
Qed.

Lemma releases_last n t m :
  Nat.iter (S n) FMRelease {| owners := S n; teardowns := t; misuses := m |}
  = {| owners := 0; teardowns := S t; misuses := m |}.
Proof.
  simpl Nat.iter. rewrite releases_while_owned by lia.
  replace (S n - n) with 1 by lia. reflexivity.
Qed.

Lemma releases_after_teardown j :
  forall t m,
    Nat.iter j FMRelease {| owners := 0; teardowns := t; misuses := m |}
    = {| owners := 0; teardowns := t; misuses := j + m |}.
Proof.
  induction j as [|j IH]; intros t m; [reflexivity|].
  simpl Nat.iter. rewrite IH. reflexivity.
Qed.

(** C5.  After [n] retains of a reference just acquired, the object is
    alive and not torn down after any [k <= n] releases; the release
    number [n + 1] tears it down, once; and however many releases follow
    (the one numbered [n + 2] among them), the teardown has still run
    exactly once: they are recorded as misuse and free nothing. *)
Theorem release_after_retains n :
  (forall k, k <= n ->
     alive (Nat.iter k FMRelease (Nat.iter n FMRetain acquired)) = true
     /\ teardowns (Nat.iter k FMRelease (Nat.iter n FMRetain acquired)) = 0)
  /\ alive (Nat.iter (n + 1) FMRelease (Nat.iter n FMRetain acquired)) = false
  /\ teardowns (Nat.iter (n + 1) FMRelease (Nat.iter n FMRetain acquired)) = 1
  /\ teardowns (Nat.iter (n + 2) FMRelease (Nat.iter n FMRetain acquired)) = 1
  /\ (forall j,
        teardowns (Nat.iter (n + 1 + j) FMRelease (Nat.iter n FMRetain acquired)) = 1).
Proof.
  rewrite retains_acquired.
  assert (forall j,
             Nat.iter (n + 1 + j) FMRelease
               {| owners := S n; teardowns := 0; misuses := 0 |}
             = {| owners := 0; teardowns := 1; misuses := j + 0 |}) as Hafter.
  { intros j. replace (n + 1 + j) with (j + S n) by lia.
    rewrite Nat.iter_add, releases_last. apply releases_after_teardown. }
  split.
  - intros k Hk. rewrite releases_while_owned by assumption.
    unfold alive. cbn [owners teardowns]. split; [|reflexivity].
    destruct (S n - k) eqn:E; [lia | reflexivity].
  - split; [|split; [|split]].
    + replace (n + 1) with (n + 1 + 0) by lia. now rewrite Hafter.
    + replace (n + 1) with (n + 1 + 0) by lia. now rewrite Hafter.
    + replace (n + 2) with (n + 1 + 1) by lia. now rewrite Hafter.
    + intros j. now rewrite Hafter.
Qed.

Lemma release_after_retains_witness :
  2 <= 3
  /\ alive (Nat.iter 2 FMRelease (Nat.iter 3 FMRetain acquired)) = true
  /\ teardowns (Nat.iter 2 FMRelease (Nat.iter 3 FMRetain acquired)) = 0.
Proof.
  split; [lia|].
  exact (proj1 (release_after_retains 3) 2 ltac:(lia)).
Defined.

End ReferenceCounting.

(* ===================================================================== *)
(** ** Tasks: single-shot delivery and cancellation *)
(* ===================================================================== *)

Section Tasks.
Import Bridge.

Lemma task_run_settled policy s es :
  s <> Running -> task_run policy s es = (s, []).
Proof.
  intros Hs. induction es as [|e es IH]; [reflexivity|].
  destruct s; [contradiction| |]; simpl in *; now rewrite IH.
Qed.

Lemma task_step_settles policy e :
  fst (task_step policy Running e) <> Running
  /\ List.length (snd (task_step policy Running e)) <= 1.
Proof.
  destruct e as [[text|err]|]; simpl; try (split; [discriminate | lia]).
  destruct policy; simpl; split; try discriminate; lia.
Qed.

(** C6.  A second [FMTaskCancel] changes nothing and delivers nothing,
    whatever the first one did; on a completed or cancelled task
    [FMTaskCancel] is a no-op; a history with two cancellations in a row
    has the outcome of the history with one; and over any history a task
    delivers at most one callback invocation.  All of this under either
    policy for the callback of a cancelled task. *)
Theorem FMTaskCancel_idempotent policy :
  (forall s,
      FMTaskCancel policy (fst (FMTaskCancel policy s))
      = (fst (FMTaskCancel policy s), []))
  /\ FMTaskCancel policy Completed = (Completed, [])
  /\ FMTaskCancel policy Cancelled = (Cancelled, [])
  /\ (forall before after,
         task_run policy Running (before ++ CancelRequested :: CancelRequested :: after)
         = task_run policy Running (before ++ CancelRequested :: after))
  /\ (forall es, List.length (snd (task_run policy Running es)) <= 1).
Proof.
  split; [intros s; destruct s; reflexivity|].
  split; [reflexivity|]. split; [reflexivity|]. split.
  - intros before after. generalize Running as s.
    induction before as [|e before IH]; intros s.
    + destruct s; simpl;
        repeat rewrite (task_run_settled policy Cancelled) by discriminate;
        repeat rewrite (task_run_settled policy Completed) by discriminate;
        reflexivity.
    + simpl. destruct (task_step policy s e) as [s' ds]. now rewrite IH.
  - intros [|e es]; [simpl; lia|].
    cbn [task_run]. destruct (task_step_settles policy e) as [Hs Hl].
    destruct (task_step policy Running e) as [s' ds]. cbn [fst snd] in Hs, Hl.
    rewrite (task_run_settled policy s' es Hs). cbn [snd]. now rewrite app_nil_r.
Qed.






End Tasks.

(* ===================================================================== *)
(** ** Availability *)
(* ===================================================================== *)

Section Availability.
Import Header Bridge.

Lemma reason_value_closed r : In (reason_value r) [0; 1; 2; 0xFF]%Z.
Proof. destruct r; simpl; tauto. Qed.

(** C8.  [FMSystemLanguageModelIsAvailable] returns its answer as the
    value of the call and leaves the engine as it was.  Through a null
    out-parameter it writes nothing; a non-null one is either left with
    the value it had or holds, after the call, the value of one of the
    four enumerators -- 0, 1, 2 or 0xFF -- and that only when the call
    returns [false], which it does exactly when the engine is
    unavailable. *)
Theorem FMSystemLanguageModelIsAvailable_reason engine out :
  engine_after (FMSystemLanguageModelIsAvailable engine out) = engine
  /\ (is_available (FMSystemLanguageModelIsAvailable engine out) = true
      <-> engine = Available)
  /\ match out with
     | None => reason_cell (FMSystemLanguageModelIsAvailable engine out) = None
     | Some old =>
         reason_cell (FMSystemLanguageModelIsAvailable engine out) = Some old
         \/ (is_available (FMSystemLanguageModelIsAvailable engine out) = false
             /\ exists reason,
                 engine = Unavailable reason
                 /\ reason_cell (FMSystemLanguageModelIsAvailable engine out)
                    = Some (reason_value reason)
                 /\ In (reason_value reason) [0; 1; 2; 0xFF]%Z)
     end.
Proof.
  destruct engine as [|reason]; simpl.
  - split; [reflexivity|]. split; [tauto|]. destruct out; auto.
  - split; [reflexivity|]. split; [split; discriminate|].
    destruct out as [old|]; simpl; [|reflexivity].
    right. split; [reflexivity|]. exists reason.
    split; [reflexivity|]. split; [reflexivity|]. apply reason_value_closed.
Qed.

End Availability.

(* ===================================================================== *)
(** ** Streams *)
(* ===================================================================== *)

Section Streams.
Import CString Header Bridge.

Lemma stream_run_closed es : stream_run Closed es = [].
Proof. induction es as [|e es IH]; [reflexivity|]. simpl. exact IH. Qed.

Lemma null_deliveries_snapshots body :
  Forall snapshot_delivery body -> null_deliveries body = [].
Proof.
  induction 1 as [|d body (_ & text & Hp & _) _ IH]; [reflexivity|].
  unfold null_deliveries, has_payload in *. simpl. rewrite Hp. simpl. exact IH.
Qed.

(** The invariant of an open stream: every snapshot still to come
    strictly extends what was sent so far. *)
Lemma stream_run_open es :
  forall so_far,
  exists body,
    Forall snapshot_delivery body
    /\ chain strict_prefix (so_far :: texts body)
    /\ chain N.le (N.of_nat (List.length so_far) :: map reported_length body)
    /\ if existsb terminates es
       then exists d, stream_run (Open so_far) es = body ++ [d] /\ payload d = None
       else stream_run (Open so_far) es = body.
Proof.
  induction es as [|e es IH]; intros so_far.
  - exists []. simpl. repeat split; constructor.
  - destruct e as [b bs| |err].
    + destruct (IH (so_far ++ b :: bs)) as (body & Hsnap & Hpre & Hle & Hshape).
      exists (succeeded (so_far ++ b :: bs) :: body).
      split; [constructor; [|exact Hsnap]|].
      { split; [reflexivity|]. now exists (so_far ++ b :: bs). }
      split; [split; [now exists b, bs | exact Hpre]|].
      split; [split; [|exact Hle]|].
      { cbn [reported_length succeeded]. rewrite length_app. lia. }
      cbn [existsb terminates orb stream_run stream_step].
      destruct (existsb terminates es).
      * destruct Hshape as (d & -> & Hd). now exists d.
      * now rewrite Hshape.
    + exists []. simpl. rewrite stream_run_closed.
      repeat split; try constructor. now exists end_marker.
    + exists []. simpl. rewrite stream_run_closed.
      repeat split; try constructor. now exists (failed err).
Qed.

(** C2.  Whatever the engine does to a stream under iteration, the
    callback invocations are a run of snapshot deliveries -- status 0,
    non-null content, the reported length that of the content, each
    snapshot a strict prefix of the next and the lengths never
    decreasing -- followed, once the engine has ended or failed the
    stream, by exactly one invocation with null content, the last of
    all: nothing is delivered after it.  Every invocation before it has
    status 0, so an invocation with nonzero status can only be that last
    one, and no null-content invocation follows it. *)
Theorem stream_deliveries es :
  exists body,
    Forall snapshot_delivery body
    /\ chain strict_prefix (texts body)
    /\ chain N.le (map reported_length body)
    /\ (if existsb terminates es
        then exists d,
            FMLanguageModelSessionResponseStreamIterate es = body ++ [d]
            /\ payload d = None
        else FMLanguageModelSessionResponseStreamIterate es = body)
    /\ List.length (null_deliveries (FMLanguageModelSessionResponseStreamIterate es))
       = (if existsb terminates es then 1 else 0).
Proof.
  unfold FMLanguageModelSessionResponseStreamIterate.
  destruct (stream_run_open es []) as (body & Hsnap & Hpre & Hle & Hshape).
  exists body. split; [exact Hsnap|].
  split; [now apply chain_cons_inv in Hpre|].
  split; [now apply chain_cons_inv in Hle|].
  split; [exact Hshape|].
  destruct (existsb terminates es).
  - destruct Hshape as (d & -> & Hd).
    unfold null_deliveries. rewrite filter_app.
    fold (null_deliveries body). rewrite (null_deliveries_snapshots body Hsnap).
    simpl. unfold has_payload. now rewrite Hd.
  - rewrite Hshape, (null_deliveries_snapshots body Hsnap). reflexivity.
Qed.

End Streams.

(* ===================================================================== *)
(** ** The example run on a stream of the bridge *)
(* ===================================================================== *)

Section ExampleOnStream.
Import CString Stdio Header Example Bridge.

Lemma until_nul_terminated text :
  Forall (fun b => b <> x00) text -> until_nul (text ++ [x00]) = Some text.
Proof.
  induction 1 as [|b text Hb _ IH]; [reflexivity|].
  simpl. destruct (Byte.eqb b x00) eqn:E.
  - apply Byte.byte_dec_bl in E. contradiction.
  - now rewrite IH.
Qed.

Lemma marshal_snapshot d :
  snapshot_delivery d -> nul_free d ->
  is_terminal (marshal d) = false
  /\ has_content (marshal d) = true
  /\ length_reported (marshal d).
Proof.
  intros (Hst & text & Hp & Hl) Hnul.
  unfold is_terminal, has_content, length_reported, marshal.
  cbn [inv_status inv_content inv_length]. rewrite Hst, Hp, Hl. simpl.
  repeat split. intros buf [= <-]. unfold strlen.
  now rewrite (until_nul_terminated text (Hnul text Hp)).
Qed.

Lemma marshal_body body :
  Forall snapshot_delivery body -> Forall nul_free body ->
  Forall (fun i => is_terminal i = false) (map marshal body)
  /\ Forall length_reported (map marshal body)
  /\ map inv_length (filter has_content (map marshal body))
     = map reported_length body.
Proof.
  induction 1 as [|d body Hd _ IH]; intros Hnul; [now repeat split|].
  inversion Hnul as [|? ? Hn Hnul']; subst.
  destruct (marshal_snapshot d Hd Hn) as (Ht & Hc & Hl).
  destruct (IH Hnul') as (IH1 & IH2 & IH3).
  simpl. rewrite Hc. simpl. rewrite IH3.
  split; [now constructor|]. split; [now constructor | reflexivity].
Qed.

(** A stream of NUL-free text that the engine ends or fails, handed to
    the example: once every invocation has been made, an evaluation of
    the loop condition that loads the flag ends the loop of [main]. *)
Theorem example_terminates_on_stream es pre k post :
  Forall nul_free (FMLanguageModelSessionResponseStreamIterate es) ->
  existsb terminates es = true ->
  List.length (FMLanguageModelSessionResponseStreamIterate es) <= completed pre + k ->
  exists context n,
    busy_wait main_context
      (map marshal (FMLanguageModelSessionResponseStreamIterate es))
      (pre ++ (k, true) :: post) 0
    = Exited context n []
    /\ isResponding context = false.
Proof.
  unfold FMLanguageModelSessionResponseStreamIterate. intros Hnul Hterm Hsum.
  destruct (stream_run_open es []) as (body & Hsnap & _ & Hle & Hshape).
  rewrite Hterm in Hshape. destruct Hshape as (d & Hrun & Hd).
  rewrite Hrun in *. apply Forall_app in Hnul. destruct Hnul as [Hnul _].
  destruct (marshal_body body Hsnap Hnul) as (Hnt & Hlen & Hlens).
  rewrite map_app. cbn [map]. unfold busy_wait. cbn [isResponding main_context].
  destruct (busy_wait_exits (marshal d) pre (map marshal body) main_context 0 k post)
    as (c & n & Hb & Hf & _); try assumption.
  - reflexivity.
  - unfold is_terminal, has_content, marshal. cbn [inv_status inv_content].
    rewrite Hd. simpl. apply orb_true_r.
  - unfold cursor_below. rewrite Hlens. exact Hle.
  - rewrite length_app in Hsum. rewrite length_map. simpl in Hsum. lia.
  - now exists c, n.
Qed.

End ExampleOnStream.

(* ===================================================================== *)
(** ** More on the callback: complete streams, late and repeated calls *)
(* ===================================================================== *)

Section CompleteStreams.
Import CString Stdio Header Example Program.

Lemma call_terminal_trace context i :
  is_terminal i = true ->
  call context i
  = Some ({| lastLength := lastLength context; isResponding := false |},
          [Write (closing i)]).
Proof.
  destruct i as [status content length].
  unfold call, is_terminal, has_content, closing. cbn [inv_status inv_content inv_length].
  destruct (Z.eq_dec status 0) as [->|Hs].
  - destruct content as [buf|]; simpl; [discriminate|]. intros _.
    now rewrite responseCallback_done.
  - intros _. rewrite responseCallback_failure by assumption.
    now destruct (Z.eqb_spec status 0).
Qed.

Lemma not_terminal_inv i :
  is_terminal i = false -> inv_status i = 0%Z /\ has_content i = true.
Proof.
  unfold is_terminal. intros H. apply orb_false_elim in H. destruct H as [H1 H2].
  apply negb_false_iff in H1, H2. split; [now apply Z.eqb_eq | exact H2].
Qed.

Lemma not_terminal_body body :
  Forall (fun i => is_terminal i = false) body ->
  Forall (fun i => inv_status i = 0%Z) body /\ forallb has_content body = true.
Proof.
  induction 1 as [|i body Hi _ [IH1 IH2]]; [now split|].
  destruct (not_terminal_inv i Hi) as [H0 Hc]. split; [now constructor|].
  simpl. now rewrite Hc, IH2.
Qed.

Lemma output_app ts1 ts2 : output (ts1 ++ ts2) = output ts1 ++ output ts2.
Proof. unfold output. apply flat_map_app. Qed.

(** A run of snapshots closed by a terminal invocation, from the
    context of [main]. *)
Lemma deliver_complete body final_inv :
  Forall (fun i => is_terminal i = false) body ->
  Forall length_reported body ->
  chain prefix (snapshots body) ->
  is_terminal final_inv = true ->
  exists context ts,
    deliver main_context (body ++ [final_inv]) = Some (context, ts)
    /\ output ts = last (snapshots body) [] ++ closing final_inv
    /\ lastLength context = N.of_nat (List.length (last (snapshots body) []))
    /\ isResponding context = false.
Proof.
  intros Hnt Hlen Hch Hterm.
  destruct (not_terminal_body body Hnt) as [Hst Hall].
  destruct (deliver_prints_suffixes body [] main_context eq_refl Hst Hlen
              (chain_prefix_nil _ Hch))
    as (c & ts & Hd & Hout & Hcur & _ & Hsame).
  rewrite (deliver_app _ _ [final_inv] _ _ Hd). cbn [deliver].
  rewrite (call_terminal_trace c final_inv Hterm).
  do 2 eexists. split; [reflexivity|].
  rewrite output_app, (Hsame Hall). simpl in Hout. rewrite Hout.
  cbn [lastLength isResponding]. split; [|now split].
  unfold output. simpl. now rewrite !app_nil_r.
Qed.

(** X1.  A stream of snapshots (status 0, content, truthful lengths,
    each snapshot starting with the one before) closed by a terminal
    invocation prints the last snapshot followed by what the terminal
    invocation prints: the end marker after a null content with status
    0, the failure message -- directly after the text, with no line
    break -- after a nonzero status.  The cursor stays at the length of
    the last snapshot and the flag is cleared. *)
Theorem stream_prints_text_then_closing body final_inv :
  Forall (fun i => is_terminal i = false) body ->
  Forall length_reported body ->
  chain prefix (snapshots body) ->
  is_terminal final_inv = true ->
  exists context ts,
    deliver main_context (body ++ [final_inv]) = Some (context, ts)
    /\ output ts
       = last (snapshots body) []
         ++ (if negb (inv_status final_inv =? 0)%Z then failure_format else done_format)
    /\ lastLength context = N.of_nat (List.length (last (snapshots body) []))
    /\ isResponding context = false.
Proof.
  intros Hnt Hlen Hch Hterm.
  destruct (deliver_complete body final_inv Hnt Hlen Hch Hterm)
    as (c & ts & Hd & Hout & Hcur & Hflag).
  exists c, ts. unfold closing in Hout. now repeat split.
Qed.

Lemma two_snapshots_not_terminal :
  Forall (fun i => is_terminal i = false) [success "He"; success "Hello"].
Proof. repeat constructor. Qed.

Lemma two_snapshots_lengths :
  Forall length_reported [success "He"; success "Hello"].
Proof. repeat constructor; intros buf [= <-]; reflexivity. Qed.

Lemma two_snapshots_prefixes :
  chain prefix (snapshots [success "He"; success "Hello"]).
Proof. split; [|exact I]. now exists (list_byte_of_string "llo"). Qed.

Lemma stream_prints_text_then_closing_witness :
  Forall (fun i => is_terminal i = false) [success "He"; success "Hello"]
  /\ Forall length_reported [success "He"; success "Hello"]
  /\ chain prefix (snapshots [success "He"; success "Hello"])
  /\ is_terminal {| inv_status := 3; inv_content := None; inv_length := 0 |} = true
  /\ exists context ts,
      deliver main_context
        ([success "He"; success "Hello"]
         ++ [{| inv_status := 3; inv_content := None; inv_length := 0 |}])
      = Some (context, ts)
      /\ output ts = list_byte_of_string "Hello" ++ failure_format.
Proof.
  split; [exact two_snapshots_not_terminal|].
  split; [exact two_snapshots_lengths|].
  split; [exact two_snapshots_prefixes|].
  split; [reflexivity|].
  destruct (stream_prints_text_then_closing
              [success "He"; success "Hello"]
              {| inv_status := 3; inv_content := None; inv_length := 0 |}
              two_snapshots_not_terminal two_snapshots_lengths
              two_snapshots_prefixes eq_refl)
    as (c & ts & Hd & Hout & _).
  exists c, ts. split; [exact Hd | exact Hout].
Defined.

End CompleteStreams.

Section CallbackState.
Import CString Stdio Header Example Program.

Lemma call_cursor context i context' t :
  call context i = Some (context', t) ->
  lastLength context'
  = if negb (is_terminal i) then inv_length i else lastLength context.
Proof.
  destruct (is_terminal i) eqn:Ht; cbn [negb].
  - rewrite (call_terminal_trace context i Ht). now intros [= <- _].
  - destruct (not_terminal_inv i Ht) as [H0 Hc].
    destruct i as [status content length]. unfold call, has_content in *.
    cbn [inv_status inv_content inv_length] in *. subst status.
    destruct content as [buf|]; [|discriminate].
    unfold responseCallback. cbn [Z.eqb negb].
    destruct (printf content_format _); [|discriminate].
    now intros [= <- _].
Qed.

(** X2.  Whenever a run of invocations returns, on any context and
    with no assumption on the invocations: the cursor it leaves is the
    reported length of the last invocation that was not terminal (the
    cursor it started from when there is none); the flag it leaves is
    the flag it started from, cleared if any invocation was terminal;
    and there is one trace per invocation. *)
Theorem deliver_final_state invs :
  forall context final ts,
    deliver context invs = Some (final, ts) ->
    lastLength final
    = last (map inv_length (filter (fun i => negb (is_terminal i)) invs))
           (lastLength context)
    /\ isResponding final
       = isResponding context && forallb (fun i => negb (is_terminal i)) invs
    /\ List.length ts = List.length invs.
Proof.
  induction invs as [|i rest IH]; intros context final ts.
  - simpl. intros [= <- <-]. now rewrite andb_true_r.
  - cbn [deliver]. destruct (call context i) as [[c t]|] eqn:Hcall; [|discriminate].
    destruct (deliver c rest) as [[f ts']|] eqn:Hd; [|discriminate].
    intros [= <- <-]. destruct (IH c f ts' Hd) as (Hcur & Hflag & Hlen).
    rewrite Hcur, Hflag, (call_cursor _ _ _ _ Hcall), (call_flag _ _ _ _ Hcall).
    cbn [filter forallb]. split; [|split; [now rewrite andb_assoc | simpl; now rewrite Hlen]].
    destruct (negb (is_terminal i)); [|reflexivity].
    cbn [map]. now rewrite last_cons.
Qed.

Lemma deliver_final_state_witness :
  deliver {| lastLength := 1; isResponding := true |}
    [success "He"; end_of_stream; success "Hello"]
  = Some ({| lastLength := 5; isResponding := false |},
          [[Load 1 2; Write (list_byte_of_string "e"); Flush];
           [Write done_format];
           [Load 2 4; Write (list_byte_of_string "llo"); Flush]])
  /\ lastLength {| lastLength := 5; isResponding := false |}
     = last (map inv_length
               (filter (fun i => negb (is_terminal i))
                  [success "He"; end_of_stream; success "Hello"])) 1%N.
Proof.
  split; [reflexivity|].
  exact (proj1 (deliver_final_state
                  [success "He"; end_of_stream; success "Hello"]
                  {| lastLength := 1; isResponding := true |}
                  {| lastLength := 5; isResponding := false |}
                  _ eq_refl)).
Defined.

Lemma call_reflag l f1 f2 i :
  call {| lastLength := l; isResponding := f1 |} i
  = option_map
      (fun r => ({| lastLength := lastLength (fst r);
                    isResponding := f1 && negb (is_terminal i) |}, snd r))
      (call {| lastLength := l; isResponding := f2 |} i).
Proof.
  destruct (is_terminal i) eqn:Ht.
  - rewrite !(call_terminal_trace _ i Ht). simpl. now rewrite andb_false_r.
  - destruct (not_terminal_inv i Ht) as [H0 Hc].
    destruct i as [status content length]. unfold call, has_content in *.
    cbn [inv_status inv_content inv_length] in *. subst status.
    destruct content as [buf|]; [|discriminate].
    unfold responseCallback. cbn [Z.eqb negb lastLength isResponding address_of_index].
    destruct (printf content_format _); simpl; [|reflexivity].
    now rewrite andb_true_r.
Qed.

(** X3.  The callback never consults [isResponding]: run from two
    contexts that differ in the flag only, a sequence of invocations is
    defined for both or for neither, does the same loads, writes and
    flushes and leaves the same cursor.  In particular what arrives
    after a terminal invocation is printed like anything else. *)
Theorem deliver_ignores_flag invs :
  forall l f1 f2,
    without_flag (deliver {| lastLength := l; isResponding := f1 |} invs)
    = without_flag (deliver {| lastLength := l; isResponding := f2 |} invs).
Proof.
  induction invs as [|i rest IH]; intros l f1 f2; [reflexivity|].
  cbn [deliver]. rewrite (call_reflag l f1 f2 i).
  destruct (call {| lastLength := l; isResponding := f2 |} i) as [[[l' f'] t]|];
    [|reflexivity].
  cbn [option_map fst snd lastLength].
  specialize (IH l' (f1 && negb (is_terminal i)) f'). unfold without_flag in *.
  destruct (deliver {| lastLength := l'; isResponding := f1 && negb (is_terminal i) |} rest)
    as [[c1 ts1]|];
    destruct (deliver {| lastLength := l'; isResponding := f' |} rest) as [[c2 ts2]|];
    simpl in *; congruence.
Qed.

(** X4.  A snapshot delivered twice in a row is printed once: when an
    invocation with status 0, content and a truthful length returns,
    the same invocation made again on the context it left is defined,
    prints nothing and leaves that context as it is. *)
Theorem repeated_snapshot_prints_nothing context i context' t :
  is_terminal i = false ->
  length_reported i ->
  call context i = Some (context', t) ->
  exists t',
    call context' i = Some (context', t')
    /\ stdout_of t' = [].
Proof.
  intros Ht Hlen Hcall. destruct (not_terminal_inv i Ht) as [H0 Hc].
  pose proof (call_cursor _ _ _ _ Hcall) as Hcur. rewrite Ht in Hcur. cbn [negb] in Hcur.
  destruct i as [status content length]. unfold call, has_content, length_reported in *.
  cbn [inv_status inv_content inv_length] in *. subst status.
  destruct content as [buf|]; [|discriminate].
  destruct (strlen_inv _ _ (Hlen buf eq_refl)) as (s & Hs & ->).
  assert (lastLength context' <= N.of_nat (List.length s))%N as Hle by lia.
  rewrite (responseCallback_content buf s _ context' Hs Hle).
  rewrite Hcur, Nat2N.id, skipn_all. destruct context' as [l f].
  cbn [lastLength isResponding] in *. subst l.
  eexists. split; reflexivity.
Qed.

Lemma repeated_snapshot_prints_nothing_witness :
  is_terminal (success "Hello") = false
  /\ length_reported (success "Hello")
  /\ exists t',
       call {| lastLength := 5; isResponding := true |} (success "Hello")
       = Some ({| lastLength := 5; isResponding := true |}, t')
       /\ stdout_of t' = [].
Proof.
  assert (length_reported (success "Hello")) as Hlen
      by (intros buf [= <-]; reflexivity).
  split; [reflexivity|]. split; [exact Hlen|].
  exact (repeated_snapshot_prints_nothing main_context (success "Hello")
           {| lastLength := 5; isResponding := true |}
           [Load 0 6; Write (list_byte_of_string "Hello"); Flush]
           eq_refl Hlen eq_refl).
Defined.

(** X5.  For a snapshot [s] held in an array that ends with its
    terminator, the call with status 0 is defined exactly when the
    cursor is at most the length of [s]: a cursor beyond the snapshot --
    left by a longer earlier snapshot or an overstated length -- makes
    the read run off the array. *)
Theorem read_defined_iff_cursor_within s length context :
  Forall (fun b => b <> x00) s ->
  (responseCallback 0 (Some (s ++ [x00])) length context <> None
   <-> (lastLength context <= N.of_nat (List.length s))%N).
Proof.
  intros Hnul. pose proof (until_nul_terminated s Hnul) as Hs. split.
  - intros Hdef. destruct (N.le_gt_cases (lastLength context) (N.of_nat (List.length s)))
      as [Hle|Hgt]; [exact Hle|].
    exfalso. apply Hdef. apply responseCallback_past_end.
    unfold read_at. rewrite skipn_all2; [reflexivity|].
    rewrite length_app. simpl. lia.
  - intros Hle. now rewrite (responseCallback_content _ s length context Hs Hle).
Qed.

Lemma read_defined_iff_cursor_within_witness :
  Forall (fun b => b <> x00) (list_byte_of_string "He")
  /\ (responseCallback 0 (Some (list_byte_of_string "He" ++ [x00])) 2
        {| lastLength := 5; isResponding := true |} <> None
      <-> (5 <= N.of_nat (List.length (list_byte_of_string "He")))%N).
Proof.
  assert (Forall (fun b => b <> x00) (list_byte_of_string "He")) as H
      by (repeat constructor; discriminate).
  split; [exact H|].
  exact (read_defined_iff_cursor_within (list_byte_of_string "He") 2
           {| lastLength := 5; isResponding := true |} H).
Defined.

End CallbackState.

(* ===================================================================== *)
(** ** The availability report of [main] *)
(* ===================================================================== *)

Section AvailabilityReport.
Import CString Stdio Header Example Program.

Lemma report_available reason :
  report true reason = Some [Write available_format].
Proof. reflexivity. Qed.

Lemma report_unavailable reason :
  report false reason = Some [Write (unavailable_line (int_cast reason))].
Proof. reflexivity. Qed.

Lemma to_int_not_nil z :
  Z.to_int z <> Decimal.Pos Decimal.Nil /\ Z.to_int z <> Decimal.Neg Decimal.Nil.
Proof.
  destruct z as [|p|p]; simpl; split; try discriminate;
    intros [= H]; exact (DecimalPos.Unsigned.to_uint_nonnil p H).
Qed.

(** The decimal rendering of an integer determines it. *)
Lemma decimal_inj z1 z2 : decimal z1 = decimal z2 -> z1 = z2.
Proof.
  unfold decimal. intros H.
  apply (f_equal string_of_list_byte) in H.
  rewrite !string_of_list_byte_of_string in H.
  apply (f_equal NilZero.int_of_string) in H.
  destruct (to_int_not_nil z1) as [H1 H1'], (to_int_not_nil z2) as [H2 H2'].
  rewrite !NilZero.isi in H by assumption.
  injection H as H. now apply DecimalZ.to_int_inj.
Qed.

Lemma int_cast_low z : (0 <= z < 2 ^ 31)%Z -> int_cast z = z.
Proof.
  intros Hz. unfold int_cast. rewrite Z.mod_small; lia.
Qed.

Lemma int_cast_high z : (2 ^ 31 <= z < 2 ^ 32)%Z -> int_cast z = (z - 2 ^ 32)%Z.
Proof.
  intros Hz. unfold int_cast.
  replace (z + 2 ^ 31)%Z with (z - 2 ^ 31 + 1 * 2 ^ 32)%Z by lia.
  rewrite Z.mod_add by lia. rewrite Z.mod_small; lia.
Qed.

(** The cast loses nothing of a 32-bit value. *)
Lemma int_cast_inj z1 z2 :
  (0 <= z1 < 2 ^ 32)%Z -> (0 <= z2 < 2 ^ 32)%Z ->
  int_cast z1 = int_cast z2 -> z1 = z2.
Proof.
  intros H1 H2.
  destruct (Z.lt_ge_cases z1 (2 ^ 31)) as [L1|G1];
    destruct (Z.lt_ge_cases z2 (2 ^ 31)) as [L2|G2];
    repeat first [rewrite (int_cast_low z1) by lia
                 |rewrite (int_cast_low z2) by lia
                 |rewrite (int_cast_high z1) by lia
                 |rewrite (int_cast_high z2) by lia];
    lia.
Qed.

(** X6.  The availability report (lines 35-39) is defined whatever the
    query answers.  For an unavailable model it is the line
    ["Model is unavailable (reason: N)"] with [N] the decimal of
    [(int)unavailableReason]: the value of the 32-bit enumeration object
    read as a signed number, so values from 2^31 on are shown as
    negative numbers.  Different values of the object give different
    lines, none of them the line of an available model; for the four
    enumerators the numbers shown are 0, 1, 2 and 255. *)
Theorem report_identifies_reason :
  (forall reason,
      report true reason = Some [Write available_format]
      /\ report false reason = Some [Write (unavailable_line (int_cast reason))])
  /\ (forall reason1 reason2,
         (0 <= reason1 < 2 ^ 32)%Z -> (0 <= reason2 < 2 ^ 32)%Z ->
         unavailable_line (int_cast reason1) = unavailable_line (int_cast reason2) ->
         reason1 = reason2)
  /\ (forall reason,
         (2 ^ 31 <= reason < 2 ^ 32)%Z -> int_cast reason = (reason - 2 ^ 32)%Z)
  /\ (forall shown, unavailable_line shown <> available_format)
  /\ map (fun r => decimal (int_cast (reason_value r)))
       [FMSystemLanguageModelUnavailableReasonAppleIntelligenceNotEnabled;
        FMSystemLanguageModelUnavailableReasonDeviceNotEligible;
        FMSystemLanguageModelUnavailableReasonModelNotReady;
        FMSystemLanguageModelUnavailableReasonUnknown]
     = map list_byte_of_string ["0"; "1"; "2"; "255"]%string.
Proof.
  split; [intros reason; split; reflexivity|]. split; [|split; [|split]].
  - intros reason1 reason2 H1 H2 H. unfold unavailable_line in H.
    apply app_inv_head in H. apply app_inv_tail in H.
    apply decimal_inj in H. now apply int_cast_inj.
  - exact int_cast_high.
  - intros shown H. unfold unavailable_line, available_format in H.
    cbn in H. discriminate H.
  - reflexivity.
Qed.

End AvailabilityReport.

(* ===================================================================== *)
(** ** [main] from start to end *)
(* ===================================================================== *)

Section WholeMain.
Import CString Stdio Header Example Program.

(** X7.  When the evaluation of the loop condition that follows the
    terminal invocation loads the flag, the loop of [main] ends there
    and waits for nothing more: if the schedule completes the terminal
    invocation and no further one before evaluation number
    [1 + length pre], and that evaluation loads [context.isResponding],
    the loop exits at exactly that evaluation, whatever the schedule
    holds afterwards, and the invocations [late] that the engine still
    has to make are left undelivered at a time when [main] goes on to
    release the stream and return. *)
Theorem busy_wait_exit_point body final_inv late pre k post :
  Forall (fun i => is_terminal i = false) body ->
  is_terminal final_inv = true ->
  Forall length_reported body ->
  lengths_nondecreasing body ->
  completed pre <= List.length body ->
  completed pre + k = List.length body + 1 ->
  exists context,
    busy_wait main_context (body ++ final_inv :: late) (pre ++ (k, true) :: post) 0
    = Exited context (S (List.length pre)) late
    /\ isResponding context = false.
Proof.
  intros Hnt Hterm Hlen Hnd Hpre Hk.
  unfold busy_wait. cbn [isResponding main_context].
  destruct (busy_wait_before pre body (final_inv :: late) ((k, true) :: post)
              main_context 0 eq_refl Hnt Hlen (cursor_below_main body Hnd) Hpre)
    as (c & Hb & Hf & Hc).
  rewrite Hb. cbn [busy_wait_seen].
  set (rest := skipn (completed pre) body) in *.
  assert (k = List.length rest + 1) as ->
      by (unfold rest; rewrite length_skipn; lia).
  rewrite firstn_app, skipn_app, firstn_all2, skipn_all2 by lia.
  replace (List.length rest + 1 - List.length rest) with 1 by lia.
  cbn [firstn skipn app].
  rewrite <- (app_nil_r rest) in Hc.
  destruct (cursor_below_deliver_app rest [] c (Forall_skipn _ _ _ Hlen) Hc)
    as (c' & ts & Hd & _ & _).
  rewrite (deliver_app _ _ [final_inv] _ _ Hd). cbn [deliver].
  rewrite (call_terminal_trace c' final_inv Hterm). cbn [isResponding].
  exists {| lastLength := lastLength c'; isResponding := false |}.
  split; [reflexivity | reflexivity].
Qed.

Lemma two_snapshots_nondecreasing :
  lengths_nondecreasing [success "He"; success "Hello"].
Proof. unfold lengths_nondecreasing; simpl; lia. Qed.

Lemma busy_wait_exit_point_witness :
  Forall (fun i => is_terminal i = false) [success "He"; success "Hello"]
  /\ is_terminal end_of_stream = true
  /\ Forall length_reported [success "He"; success "Hello"]
  /\ lengths_nondecreasing [success "He"; success "Hello"]
  /\ completed [(0, true); (2, false)] <= 2
  /\ completed [(0, true); (2, false)] + 1 = 2 + 1
  /\ exists context,
       busy_wait main_context
         ([success "He"; success "Hello"] ++ end_of_stream :: [success "Hello!"])
         ([(0, true); (2, false)] ++ (1, true) :: [(5, true)]) 0
       = Exited context 3 [success "Hello!"]
       /\ isResponding context = false.
Proof.
  split; [exact two_snapshots_not_terminal|]. split; [reflexivity|].
  split; [exact two_snapshots_lengths|]. split; [exact two_snapshots_nondecreasing|].
  split; [cbv; lia|]. split; [reflexivity|].
  exact (busy_wait_exit_point [success "He"; success "Hello"] end_of_stream
           [success "Hello!"] [(0, true); (2, false)] 1 [(5, true)]
           two_snapshots_not_terminal eq_refl two_snapshots_lengths
           two_snapshots_nondecreasing (le_n 2) eq_refl).
Defined.

End WholeMain.

Section MainRun.
Import CString Stdio Header Example Program.






End MainRun.

(* ===================================================================== *)
(** ** Conventions of the header *)
(* ===================================================================== *)

Section HeaderConventions.
Import Interface.

(** A property of every declaration, shown one declaration at a time. *)
Ltac each_declaration tac :=
  apply (proj1 (Forall_forall _ declarations)); unfold declarations;
  repeat (apply Forall_cons; [tac|]); apply Forall_nil.

(** A property of every parameter of one declaration. *)
Ltac each_parameter tac :=
  let p := fresh "p" in
  let Hp := fresh "Hp" in
  intros p Hp; cbn in Hp;
  repeat (destruct Hp as [<-|Hp]; [tac|]); contradiction.

Lemma declarations_count : List.length declarations = 36.
Proof. reflexivity. Qed.

Lemma declarations_names_distinct : NoDup (map fname declarations).
Proof.
  unfold declarations. cbn [map fname].
  repeat (apply NoDup_cons; [cbn; intros H; repeat (destruct H as [H|H]; [discriminate H|]); exact H|]).
  apply NoDup_nil.
Qed.

(** The two transcriptions of the guide functions agree. *)
Lemma guide_declarations_agree k :
  option_map (fun d => map pname (params d))
    (lookup (Header.decl_name (Header.guide_declaration k)))
  = Some (map Header.param_name (Header.decl_params (Header.guide_declaration k))).
Proof. destruct k; reflexivity. Qed.

(** X10.  Five functions take a callback, each exactly one.  In four of
    them -- the three [Respond] functions and
    [FMLanguageModelSessionResponseStreamIterate] -- it is a response
    callback, the last parameter, directly after
    [void *_Nullable userInfo]; three of these return an [FMTaskRef],
    while [...StreamIterate] returns [void]: iterating a stream yields
    no task.  The fifth, [FMBridgedToolCreate], takes the function
    pointer [callable] as the fourth of its six parameters, has no
    [userInfo], and returns a nullable tool reference.  A [userInfo]
    parameter occurs only together with a callback; every function that
    returns an [FMTaskRef] takes a callback and a [userInfo]; and
    [FMTaskCancel] is the only function with a task among its
    parameters. *)
Theorem callback_convention :
  List.length (filter takes_callback declarations) = 5
  /\ forall d, In d declarations ->
    (takes_callback d = true ->
     List.length (filter (fun p => is_callback (ptype p)) (params d)) = 1
     /\ ((exists c,
             last_two (params d) = [user_info; param (CCallback c) "callback"]
             /\ (is_task (result d) = true
                 \/ (fname d = "FMLanguageModelSessionResponseStreamIterate"%string
                     /\ result d = CVoid)))
         \/ (fname d = "FMBridgedToolCreate"%string
             /\ nth_error (params d) 3 = Some tool_callable
             /\ List.length (params d) = 6
             /\ has_user_info d = false
             /\ result d = CRef FMBridgedToolRef Nullable)))
    /\ (has_user_info d = true -> takes_callback d = true)
    /\ (is_task (result d) = true ->
        takes_callback d = true /\ has_user_info d = true)
    /\ (forall p, In p (params d) -> is_task (ptype p) = true ->
        fname d = "FMTaskCancel"%string).
Proof.
  split; [reflexivity|].
  each_declaration
    ltac:(split;
          [intros H; cbv in H; first
             [discriminate H
             |split; [reflexivity|];
              first
                [left; eexists; split; [reflexivity|];
                 first [left; reflexivity | right; split; reflexivity]
                |right; repeat split; reflexivity]]
          |split;
           [intros H; cbv in H; first [discriminate H | reflexivity]
           |split;
            [intros H; cbv in H; first [discriminate H | split; reflexivity]
            |each_parameter
               ltac:(intros H; cbv in H; first [discriminate H | reflexivity])]]]).
Qed.

Lemma callback_convention_witness :
  In {| fname := "FMBridgedToolCreate";
        result := CRef FMBridgedToolRef Nullable;
        params := [param (string_in Nonnull) "name";
                   param (string_in Nonnull) "description";
                   param (CRef FMGenerationSchemaRef Nonnull) "parameters";
                   tool_callable;
                   out_error_code; out_error_description] |}
     declarations
  /\ takes_callback
       {| fname := "FMBridgedToolCreate";
          result := CRef FMBridgedToolRef Nullable;
          params := [param (string_in Nonnull) "name";
                     param (string_in Nonnull) "description";
                     param (CRef FMGenerationSchemaRef Nonnull) "parameters";
                     tool_callable;
                     out_error_code; out_error_description] |} = true
  /\ List.length
       (filter (fun p => is_callback (ptype p))
          [param (string_in Nonnull) "name";
           param (string_in Nonnull) "description";
           param (CRef FMGenerationSchemaRef Nonnull) "parameters";
           tool_callable;
           out_error_code; out_error_description]) = 1.
Proof.
  assert (In {| fname := "FMBridgedToolCreate";
                result := CRef FMBridgedToolRef Nullable;
                params := [param (string_in Nonnull) "name";
                           param (string_in Nonnull) "description";
                           param (CRef FMGenerationSchemaRef Nonnull) "parameters";
                           tool_callable;
                           out_error_code; out_error_description] |}
             declarations) as Hin by (cbn; tauto).
  split; [exact Hin|]. split; [reflexivity|].
  exact (proj1 (proj1 (proj2 callback_convention _ Hin) eq_refl)).
Defined.

(** X11.  A function with an [outErrorCode] or [outErrorDescription]
    parameter has both, as its last two parameters
    ([int *_Nullable outErrorCode], then
    [char *_Nullable *_Nullable outErrorDescription]), and its result may be
    null.  Among the functions that return a reference, those whose
    result may be null are exactly the ones with these out-parameters. *)
Theorem error_convention :
  forall d, In d declarations ->
    (reports_errors d = true ->
     last_two (params d) = [out_error_code; out_error_description]
     /\ may_be_null (result d) = Some Nullable)
    /\ (is_reference (result d) = true ->
        may_be_null (result d) = Some Nullable ->
        reports_errors d = true).
Proof.
  each_declaration
    ltac:(split;
          [intros H; cbv in H; first [discriminate H | split; reflexivity]
          |intros H H'; cbv in H, H'; first [discriminate H | discriminate H' | reflexivity]]).
Qed.

Lemma error_convention_witness :
  In {| fname := "FMGeneratedContentCreateFromJSON";
        result := CRef FMGeneratedContentRef Nullable;
        params := [param (string_in Nonnull) "jsonString";
                   out_error_code; out_error_description] |}
     declarations
  /\ last_two [param (string_in Nonnull) "jsonString";
               out_error_code; out_error_description]
     = [out_error_code; out_error_description]
  /\ may_be_null (CRef FMGeneratedContentRef Nullable) = Some Nullable.
Proof.
  assert (In {| fname := "FMGeneratedContentCreateFromJSON";
                result := CRef FMGeneratedContentRef Nullable;
                params := [param (string_in Nonnull) "jsonString";
                           out_error_code; out_error_description] |}
             declarations) as Hin by (cbn; tauto).
  split; [exact Hin|].
  exact (proj1 (error_convention _ Hin) eq_refl).
Defined.

(** X12.  Every function whose result is a [char *] returns it as
    [char *_Nullable], which is the type of the one parameter of
    [FMFreeString]: whatever such a function returns, null included,
    can be handed to [FMFreeString] as it is.  No other function has a
    [char *] parameter: every string a caller passes in is a
    [const char *]. *)
Theorem string_ownership :
  lookup "FMFreeString"
  = Some {| fname := "FMFreeString"; result := CVoid;
            params := [param owned_string "str"] |}
  /\ forall d, In d declarations ->
       (is_mutable_string (result d) = true -> result d = owned_string)
       /\ (forall p, In p (params d) -> is_mutable_string (ptype p) = true ->
           fname d = "FMFreeString"%string).
Proof.
  split; [reflexivity|].
  each_declaration
    ltac:(split;
          [intros H; cbv in H; first [discriminate H | reflexivity]
          |each_parameter
             ltac:(intros H; cbv in H; first [discriminate H | reflexivity])]).
Qed.

Lemma string_ownership_witness :
  In {| fname := "FMGeneratedContentGetJSONString";
        result := owned_string;
        params := [param (CRef FMGeneratedContentRef Nonnull) "content"] |}
     declarations
  /\ is_mutable_string owned_string = true
  /\ owned_string = CPointer CChar Nullable.
Proof.
  assert (In {| fname := "FMGeneratedContentGetJSONString";
                result := owned_string;
                params := [param (CRef FMGeneratedContentRef Nonnull) "content"] |}
             declarations) as Hin by (cbn; tauto).
  split; [exact Hin|]. split; [reflexivity|].
  exact (proj1 (proj2 string_ownership _ Hin) eq_refl).
Defined.

(** X13.  Every reference a function takes must not be null -- by its
    own annotation, or by the typedef for the task of [FMTaskCancel] --
    with one exception: the [model] of
    [FMLanguageModelSessionCreateFromSystemLanguageModel].  [FMRetain]
    and [FMRelease] take a [const void *_Nonnull]. *)
Theorem reference_parameters_nonnull :
  (forall d, In d declarations ->
     forall p, In p (params d) ->
       is_reference (ptype p) = true ->
       may_be_null (ptype p) = Some Nonnull
       \/ (fname d = "FMLanguageModelSessionCreateFromSystemLanguageModel"%string
           /\ pname p = "model"%string))
  /\ option_map params (lookup "FMRetain")
     = Some [param (CPointer CConstVoid Nonnull) "object"]
  /\ option_map params (lookup "FMRelease")
     = Some [param (CPointer CConstVoid Nonnull) "object"].
Proof.
  split; [|split; reflexivity].
  assert (Forall
            (fun d =>
               forall p, In p (params d) ->
                 is_reference (ptype p) = true ->
                 may_be_null (ptype p) = Some Nonnull
                 \/ (fname d
                     = "FMLanguageModelSessionCreateFromSystemLanguageModel"%string
                     /\ pname p = "model"%string))
            declarations) as Hall.
  { unfold declarations.
    repeat (apply Forall_cons;
            [each_parameter
               ltac:(intros H; cbv in H;
                     first [discriminate H
                           | left; reflexivity
                           | right; split; reflexivity])|]).
    apply Forall_nil. }
  exact (proj1 (Forall_forall _ _) Hall).
Qed.

Lemma reference_parameters_nonnull_witness :
  In {| fname := "FMTaskCancel"; result := CVoid;
        params := [param (CRef FMTaskRef Unannotated) "task"] |} declarations
  /\ In (param (CRef FMTaskRef Unannotated) "task")
        [param (CRef FMTaskRef Unannotated) "task"]
  /\ is_reference (CRef FMTaskRef Unannotated) = true
  /\ (may_be_null (CRef FMTaskRef Unannotated) = Some Nonnull
      \/ ("FMTaskCancel"
          = "FMLanguageModelSessionCreateFromSystemLanguageModel"
          /\ "task" = "model")%string).
Proof.
  assert (In {| fname := "FMTaskCancel"; result := CVoid;
                params := [param (CRef FMTaskRef Unannotated) "task"] |} declarations)
    as Hin by (cbn; tauto).
  split; [exact Hin|]. split; [left; reflexivity|]. split; [reflexivity|].
  exact (proj1 reference_parameters_nonnull _ Hin
           (param (CRef FMTaskRef Unannotated) "task") (or_introl eq_refl) eq_refl).
Defined.

End HeaderConventions.

(* ===================================================================== *)
(** ** A stream without an end *)
(* ===================================================================== *)

Section NoTimeout.
Import CString Stdio Header Example Program.




End NoTimeout.

Section AvailabilityReportWitness.
Import CString Stdio Header Example Program.

Lemma report_identifies_reason_witness :
  (0 <= 4294967295 < 2 ^ 32)%Z
  /\ unavailable_line (int_cast 4294967295) = unavailable_line (int_cast 4294967295)
  /\ unavailable_line (int_cast 4294967295)
     = list_byte_of_string "Model is unavailable (reason: -1)" ++ [x0a]
  /\ (4294967295 = 4294967295)%Z.
Proof.
  assert (0 <= 4294967295 < 2 ^ 32)%Z as H by (split; [discriminate | reflexivity]).
  split; [exact H|]. split; [reflexivity|]. split; [reflexivity|].
  exact (proj1 (proj2 report_identifies_reason) 4294967295%Z 4294967295%Z
           H H eq_refl).
Defined.

End AvailabilityReportWitness.
